(** * NWSerial: the NW.js native serial transport of betaflight-configurator

    A shallow embedding of [src/js/protocols/NWSerial.js] (device registry,
    hot-plug polling and the connect / send / disconnect session logic) and of
    the port selector exercised by [test/js/port_handler.test.js].

    The JavaScript object is a record of its fields.  Every method is cut at
    its [await] points and at the callbacks it hands to the [serialport]
    library: each synchronous segment is one function from a state to a new
    state and the list of effects (events dispatched, console output, library
    calls, promise settlements) it produced.  A labelled step function then
    lets the client and the library drive the object in any order, the way
    the single-threaded event loop does.

    What is taken from outside the class:
    - the client's event listeners and the [callback] given to [send] are
      recorded as effects; what they do in turn (calling back into the
      object) is a later step of the loop;
    - the [serialport] library reports failures through the callbacks it
      is given; the one call whose raising the class provides for, in the
      [catch] block of [disconnect], has its own switch;
    - the byte counters are JavaScript numbers that only ever hold
      non-negative integers; they are modelled as [Z], exact as long as they
      stay below 2^53.

    [requestPermissionDevice] and [getDevices] only call [loadDevices] and
    read [ports]; the polling timer is represented by its ticks.

    The module [Gulpfile] embeds the platform selection, the build loop and
    the list of release tasks of [gulpfile.cjs]. *)

From Stdlib Require Import ZArith Ascii String Lia.
From stdpp Require Import base list strings gmap.

Open Scope Z_scope.

(** ** JavaScript values used by the registry *)

(** [parseInt(x, 16)] yields a number or NaN; the descriptor fields
    [vendorId] / [productId] may also be [undefined]. *)
Inductive JsNum :=
| Undefined
| NaN
| Num (z : Z).

#[global] Instance JsNum_eq_dec : EqDecision JsNum.
Proof. solve_decision. Defined.

(** Truthiness of such a value ([undefined], NaN and 0 are falsy). *)
Definition truthy_num (v : JsNum) : bool :=
  match v with
  | Num z => negb (z =? 0)
  | _ => false
  end.

(** Truthiness of an optional string ([undefined] and [""] are falsy). *)
Definition truthy_str (v : option string) : bool :=
  match v with
  | Some s => negb (String.eqb s "")
  | None => false
  end.

(** *** [parseInt(s, 16)] *)

Definition is_js_space (c : ascii) : bool :=
  let n := nat_of_ascii c in
  ((n =? 9) || (n =? 10) || (n =? 11) || (n =? 12) || (n =? 13) || (n =? 32))%nat.

Fixpoint skip_space (s : string) : string :=
  match s with
  | String c r => if is_js_space c then skip_space r else s
  | EmptyString => s
  end.

Definition hex_digit (c : ascii) : option Z :=
  let n := nat_of_ascii c in
  if ((48 <=? n) && (n <=? 57))%nat then Some (Z.of_nat n - 48)
  else if ((97 <=? n) && (n <=? 102))%nat then Some (Z.of_nat n - 87)
  else if ((65 <=? n) && (n <=? 70))%nat then Some (Z.of_nat n - 55)
  else None.

(** Longest prefix of hexadecimal digits; [None] when there is none. *)
Fixpoint hex_prefix (acc : option Z) (s : string) : option Z :=
  match s with
  | String c r =>
      match hex_digit c with
      | Some d => hex_prefix (Some (16 * default 0 acc + d)) r
      | None => acc
      end
  | EmptyString => acc
  end.

Definition strip_0x (s : string) : string :=
  match s with
  | String "0" (String "x" r) => r
  | String "0" (String "X" r) => r
  | _ => s
  end.

Definition strip_sign (s : string) : Z * string :=
  match s with
  | String "-" r => (-1, r)
  | String "+" r => (1, r)
  | _ => (1, s)
  end.

(** Leading white space is skipped, then an optional sign and an optional
    [0x] prefix; the digits stop at the first character that is not one.
    White space is the ASCII part of the ECMAScript set. *)
Definition parseInt16 (s : string) : JsNum :=
  let '(sign, r) := strip_sign (skip_space s) in
  match hex_prefix None (strip_0x r) with
  | Some v => Num (sign * v)
  | None => NaN
  end.

(** ** Device descriptors *)

(** What [SerialPort.list()] reports for one port (the fields the code reads). *)
Module PortInfo.
Record t := mk {
  path : string;
  vendorId : option string;
  productId : option string;
  manufacturer : option string
}.
End PortInfo.

#[global] Instance PortInfo_eq_dec : EqDecision PortInfo.t.
Proof. solve_decision. Defined.

(** The descriptor built by [_createPort]. *)
Module Device.
Record t := mk {
  path : string;
  displayName : string;
  vendorId : JsNum;
  productId : JsNum;
  port : PortInfo.t
}.
End Device.

#[global] Instance Device_eq_dec : EqDecision Device.t.
Proof. solve_decision. Defined.

Section Registry.

(** The table [vendorIdNames] of [./devices], which is not part of the
    sources at hand: vendor id to label. *)
Variable vendorIdNames : gmap Z string.

Definition vendor_label (v : JsNum) : option string :=
  match v with
  | Num z => vendorIdNames !! z
  | _ => None
  end.

Definition _createPort (portInfo : PortInfo.t) : Device.t :=
  let vendorId :=
    if truthy_str (PortInfo.vendorId portInfo)
    then parseInt16 (default "" (PortInfo.vendorId portInfo)) else Undefined in
  let productId :=
    if truthy_str (PortInfo.productId portInfo)
    then parseInt16 (default "" (PortInfo.productId portInfo)) else Undefined in
  let displayName :=
    if truthy_num vendorId && truthy_str (vendor_label vendorId)
    then default "" (vendor_label vendorId)
    else if truthy_str (PortInfo.manufacturer portInfo)
    then default "" (PortInfo.manufacturer portInfo)
    else PortInfo.path portInfo in
  {| Device.path := PortInfo.path portInfo;
     Device.displayName := "Betaflight " +:+ displayName;
     Device.vendorId := vendorId;
     Device.productId := productId;
     Device.port := portInfo |}.

End Registry.

(** ** The session object *)

Record ConnectionInfo := mkConnectionInfo {
  usbVendorId : JsNum;
  usbProductId : JsNum
}.

#[global] Instance ConnectionInfo_eq_dec : EqDecision ConnectionInfo.
Proof. solve_decision. Defined.

(** [connectionId] is not assigned by the constructor ([undefined]), is the
    path while a connection is open and is set to [false] by a teardown. *)
Inductive ConnId :=
| IdUnset
| IdFalse
| IdPath (path : string).

#[global] Instance ConnId_eq_dec : EqDecision ConnId.
Proof. solve_decision. Defined.

(** A [SerialPort] object created by [connect]: what the code reads of it
    ([isOpen]) and how many times the data / error / close handler triple
    was attached to it with [port.on]. *)
Record Handle := mkHandle {
  h_path : string;
  h_baudRate : Z;
  isOpen : bool;
  listeners : nat
}.

#[global] Instance Handle_eq_dec : EqDecision Handle.
Proof. solve_decision. Defined.

#[global] Instance byte_eq_dec : EqDecision Byte.byte := Strings.Byte.byte_eq_dec.

(** Callbacks handed to the library that have not fired yet.  Each carries
    the handle the library call was made on and what its closure captured. *)
Inductive Task :=
| OpenCb (h : nat) (path : string) (baudRate : Z) (device : Device.t)
| CancelCloseCb (h : nat)
| DisconnectCloseCb (h : nat)
| WriteCb (h : nat) (data : list Byte.byte) (callback : bool)
| DrainCb (h : nat) (data : list Byte.byte) (callback : bool).

#[global] Instance Task_eq_dec : EqDecision Task.
Proof. solve_decision. Defined.

(** The fields of [this], followed by the three pieces of the environment
    the methods act on: whether [handleReceiveBytes] is registered for
    "receive" (the same bound function every time, so registering twice is
    registering once), the [SerialPort] objects created so far ([port] is an
    index into them) and the callbacks in flight.  [_SerialPort] says whether
    the module was loaded; [available] always equals it and the polling timer
    [_pollInterval] is left out. *)
Record NWSerial := mkNWSerial {
  connected : bool;
  openRequested : bool;
  openCanceled : bool;
  closeRequested : bool;
  transmitting : bool;
  connectionInfo : option ConnectionInfo;
  connectionId : ConnId;
  bitrate : Z;
  bytesSent : Z;
  bytesReceived : Z;
  failed : Z;
  ports : list Device.t;
  port : option nat;
  reading : bool;
  _SerialPort : bool;
  receiveListener : bool;
  handles : list Handle;
  pending : list Task
}.

(** Field update, written [s <| field := v |>]. *)
Class Setter {R T : Type} (proj : R → T) := set : T → R → R.
Arguments set {R T} proj {Setter} v r /.
Notation "s <| f := v |>" := (set f v s)
  (at level 1, left associativity, format "s  <| f  :=  v |>").

#[global] Instance set_connected : Setter connected := λ v s,
  let 'mkNWSerial connected openRequested openCanceled closeRequested
    transmitting connectionInfo connectionId bitrate bytesSent bytesReceived
    failed ports port reading _SerialPort receiveListener handles pending :=
    s in
  mkNWSerial v openRequested openCanceled closeRequested transmitting
    connectionInfo connectionId bitrate bytesSent bytesReceived failed ports
    port reading _SerialPort receiveListener handles pending.
#[global] Instance set_openRequested : Setter openRequested := λ v s,
  let 'mkNWSerial connected openRequested openCanceled closeRequested
    transmitting connectionInfo connectionId bitrate bytesSent bytesReceived
    failed ports port reading _SerialPort receiveListener handles pending :=
    s in
  mkNWSerial connected v openCanceled closeRequested transmitting
    connectionInfo connectionId bitrate bytesSent bytesReceived failed ports
    port reading _SerialPort receiveListener handles pending.
#[global] Instance set_openCanceled : Setter openCanceled := λ v s,
  let 'mkNWSerial connected openRequested openCanceled closeRequested
    transmitting connectionInfo connectionId bitrate bytesSent bytesReceived
    failed ports port reading _SerialPort receiveListener handles pending :=
    s in
  mkNWSerial connected openRequested v closeRequested transmitting
    connectionInfo connectionId bitrate bytesSent bytesReceived failed ports
    port reading _SerialPort receiveListener handles pending.
#[global] Instance set_closeRequested : Setter closeRequested := λ v s,
  let 'mkNWSerial connected openRequested openCanceled closeRequested
    transmitting connectionInfo connectionId bitrate bytesSent bytesReceived
    failed ports port reading _SerialPort receiveListener handles pending :=
    s in
  mkNWSerial connected openRequested openCanceled v transmitting
    connectionInfo connectionId bitrate bytesSent bytesReceived failed ports
    port reading _SerialPort receiveListener handles pending.
#[global] Instance set_transmitting : Setter transmitting := λ v s,
  let 'mkNWSerial connected openRequested openCanceled closeRequested
    transmitting connectionInfo connectionId bitrate bytesSent bytesReceived
    failed ports port reading _SerialPort receiveListener handles pending :=
    s in
  mkNWSerial connected openRequested openCanceled closeRequested v
    connectionInfo connectionId bitrate bytesSent bytesReceived failed ports
    port reading _SerialPort receiveListener handles pending.
#[global] Instance set_connectionInfo : Setter connectionInfo := λ v s,
  let 'mkNWSerial connected openRequested openCanceled closeRequested
    transmitting connectionInfo connectionId bitrate bytesSent bytesReceived
    failed ports port reading _SerialPort receiveListener handles pending :=
    s in
  mkNWSerial connected openRequested openCanceled closeRequested
    transmitting v connectionId bitrate bytesSent bytesReceived failed ports
    port reading _SerialPort receiveListener handles pending.
#[global] Instance set_connectionId : Setter connectionId := λ v s,
  let 'mkNWSerial connected openRequested openCanceled closeRequested
    transmitting connectionInfo connectionId bitrate bytesSent bytesReceived
    failed ports port reading _SerialPort receiveListener handles pending :=
    s in
  mkNWSerial connected openRequested openCanceled closeRequested
    transmitting connectionInfo v bitrate bytesSent bytesReceived failed
    ports port reading _SerialPort receiveListener handles pending.
#[global] Instance set_bitrate : Setter bitrate := λ v s,
  let 'mkNWSerial connected openRequested openCanceled closeRequested
    transmitting connectionInfo connectionId bitrate bytesSent bytesReceived
    failed ports port reading _SerialPort receiveListener handles pending :=
    s in
  mkNWSerial connected openRequested openCanceled closeRequested
    transmitting connectionInfo connectionId v bytesSent bytesReceived
    failed ports port reading _SerialPort receiveListener handles pending.
#[global] Instance set_bytesSent : Setter bytesSent := λ v s,
  let 'mkNWSerial connected openRequested openCanceled closeRequested
    transmitting connectionInfo connectionId bitrate bytesSent bytesReceived
    failed ports port reading _SerialPort receiveListener handles pending :=
    s in
  mkNWSerial connected openRequested openCanceled closeRequested
    transmitting connectionInfo connectionId bitrate v bytesReceived failed
    ports port reading _SerialPort receiveListener handles pending.
#[global] Instance set_bytesReceived : Setter bytesReceived := λ v s,
  let 'mkNWSerial connected openRequested openCanceled closeRequested
    transmitting connectionInfo connectionId bitrate bytesSent bytesReceived
    failed ports port reading _SerialPort receiveListener handles pending :=
    s in
  mkNWSerial connected openRequested openCanceled closeRequested
    transmitting connectionInfo connectionId bitrate bytesSent v failed
    ports port reading _SerialPort receiveListener handles pending.
#[global] Instance set_failed : Setter failed := λ v s,
  let 'mkNWSerial connected openRequested openCanceled closeRequested
    transmitting connectionInfo connectionId bitrate bytesSent bytesReceived
    failed ports port reading _SerialPort receiveListener handles pending :=
    s in
  mkNWSerial connected openRequested openCanceled closeRequested
    transmitting connectionInfo connectionId bitrate bytesSent bytesReceived
    v ports port reading _SerialPort receiveListener handles pending.
#[global] Instance set_ports : Setter ports := λ v s,
  let 'mkNWSerial connected openRequested openCanceled closeRequested
    transmitting connectionInfo connectionId bitrate bytesSent bytesReceived
    failed ports port reading _SerialPort receiveListener handles pending :=
    s in
  mkNWSerial connected openRequested openCanceled closeRequested
    transmitting connectionInfo connectionId bitrate bytesSent bytesReceived
    failed v port reading _SerialPort receiveListener handles pending.
#[global] Instance set_port : Setter port := λ v s,
  let 'mkNWSerial connected openRequested openCanceled closeRequested
    transmitting connectionInfo connectionId bitrate bytesSent bytesReceived
    failed ports port reading _SerialPort receiveListener handles pending :=
    s in
  mkNWSerial connected openRequested openCanceled closeRequested
    transmitting connectionInfo connectionId bitrate bytesSent bytesReceived
    failed ports v reading _SerialPort receiveListener handles pending.
#[global] Instance set_reading : Setter reading := λ v s,
  let 'mkNWSerial connected openRequested openCanceled closeRequested
    transmitting connectionInfo connectionId bitrate bytesSent bytesReceived
    failed ports port reading _SerialPort receiveListener handles pending :=
    s in
  mkNWSerial connected openRequested openCanceled closeRequested
    transmitting connectionInfo connectionId bitrate bytesSent bytesReceived
    failed ports port v _SerialPort receiveListener handles pending.
#[global] Instance set_SerialPort : Setter _SerialPort := λ v s,
  let 'mkNWSerial connected openRequested openCanceled closeRequested
    transmitting connectionInfo connectionId bitrate bytesSent bytesReceived
    failed ports port reading _SerialPort receiveListener handles pending :=
    s in
  mkNWSerial connected openRequested openCanceled closeRequested
    transmitting connectionInfo connectionId bitrate bytesSent bytesReceived
    failed ports port reading v receiveListener handles pending.
#[global] Instance set_receiveListener : Setter receiveListener := λ v s,
  let 'mkNWSerial connected openRequested openCanceled closeRequested
    transmitting connectionInfo connectionId bitrate bytesSent bytesReceived
    failed ports port reading _SerialPort receiveListener handles pending :=
    s in
  mkNWSerial connected openRequested openCanceled closeRequested
    transmitting connectionInfo connectionId bitrate bytesSent bytesReceived
    failed ports port reading _SerialPort v handles pending.
#[global] Instance set_handles : Setter handles := λ v s,
  let 'mkNWSerial connected openRequested openCanceled closeRequested
    transmitting connectionInfo connectionId bitrate bytesSent bytesReceived
    failed ports port reading _SerialPort receiveListener handles pending :=
    s in
  mkNWSerial connected openRequested openCanceled closeRequested
    transmitting connectionInfo connectionId bitrate bytesSent bytesReceived
    failed ports port reading _SerialPort receiveListener v pending.
#[global] Instance set_pending : Setter pending := λ v s,
  let 'mkNWSerial connected openRequested openCanceled closeRequested
    transmitting connectionInfo connectionId bitrate bytesSent bytesReceived
    failed ports port reading _SerialPort receiveListener handles pending :=
    s in
  mkNWSerial connected openRequested openCanceled closeRequested
    transmitting connectionInfo connectionId bitrate bytesSent bytesReceived
    failed ports port reading _SerialPort receiveListener handles v.

#[global] Instance set_isOpen : Setter isOpen := λ v h,
  let 'mkHandle h_path h_baudRate isOpen listeners := h in
  mkHandle h_path h_baudRate v listeners.
#[global] Instance set_listeners : Setter listeners := λ v h,
  let 'mkHandle h_path h_baudRate isOpen listeners := h in
  mkHandle h_path h_baudRate isOpen v.

(** State right after the constructor; [loaded] says whether
    [nw.require("serialport")] succeeded. *)
Definition new_NWSerial (loaded : bool) : NWSerial :=
  {| connected := false; openRequested := false; openCanceled := false;
     closeRequested := false; transmitting := false; connectionInfo := None;
     connectionId := IdUnset; bitrate := 0; bytesSent := 0;
     bytesReceived := 0; failed := 0; ports := []; port := None;
     reading := false; _SerialPort := loaded; receiveListener := false;
     handles := []; pending := [] |}.

(** ** Effects *)

Inductive Event :=
| EAddedDevice (detail : Device.t)
| ERemovedDevice (detail : Device.t)
| EConnect (detail : option ConnectionInfo)   (* [None] is the payload [false] *)
| EDisconnect (detail : bool)
| EReceive (detail : list Byte.byte).

Inductive LogMsg :=
| LogAlreadyConnected
| LogDeviceNotFound (path : string)
| LogErrorOpening
| LogConnectionOpened (id : ConnId) (baudRate : Z)
| LogSerialPortError
| LogClosedUnexpectedly
| LogErrorClosing
| LogConnectionClosed (id : ConnId) (sent received : Z)
| LogErrorDisconnecting
| LogSendNotOpen
| LogErrorSending
| LogErrorPolling
| LogErrorLoading.

(** How a promise returned by one of the three methods is settled. *)
Inductive Settlement :=
| ConnectResult (ok : bool)
| ConnectRejected
| DisconnectResult (ok : bool)
| SendResult (bytesSent : Z).

Inductive Effect :=
| Emit (e : Event)                       (* dispatchEvent *)
| Log (m : LogMsg)                       (* console.log / warn / error *)
| AddReceiveListener
| RemoveReceiveListener
| PortOpenCall (h : nat)
| PortCloseCall (h : nat)
| PortWriteCall (h : nat) (data : list Byte.byte)
| PortDrainCall (h : nat)
| Callback (bytesSent : Z)               (* the caller's [callback(result)] *)
| Settle (r : Settlement)
| Uncaught.                              (* a TypeError escaping a callback *)

(** What a call of an [async] method has done when control returns to the
    caller: settled with a value, suspended on a library callback, or
    rejected. *)
Inductive Outcome (A : Type) :=
| Returned (a : A)
| Suspended
| Threw.
Arguments Returned {A} a.
Arguments Suspended {A}.
Arguments Threw {A}.

Definition byteLength (data : list Byte.byte) : Z := Z.of_nat (length data).

(** ** Device registry: [loadDevices] and [_pollDevices] *)

Section Polling.

Variable vendorIdNames : gmap Z string.

(** First loop of [_pollDevices]: [knownPaths] was computed before the
    loop and is not refreshed while descriptors are pushed. *)
Fixpoint poll_added (knownPaths : list string) (systemPorts : list PortInfo.t)
    (ps : list Device.t) : list Device.t * list Effect :=
  match systemPorts with
  | [] => (ps, [])
  | portInfo :: rest =>
      if bool_decide (PortInfo.path portInfo ∈ knownPaths)
      then poll_added knownPaths rest ps
      else
        let added := _createPort vendorIdNames portInfo in
        let '(ps', effs) := poll_added knownPaths rest (ps ++ [added]) in
        (ps', Emit (EAddedDevice added) :: effs)
  end.

(** Second loop: it walks a copy of [this.ports] taken before the loop
    and filters the live list. *)
Fixpoint poll_removed (currentPaths : list string) (snapshot : list Device.t)
    (ps : list Device.t) : list Device.t * list Effect :=
  match snapshot with
  | [] => (ps, [])
  | port :: rest =>
      if bool_decide (Device.path port ∈ currentPaths)
      then poll_removed currentPaths rest ps
      else
        let ps1 := filter (λ p, Device.path p ≠ Device.path port) ps in
        let '(ps', effs) := poll_removed currentPaths rest ps1 in
        (ps', Emit (ERemovedDevice port) :: effs)
  end.

(** One poll cycle.  [listed] is what [await SerialPort.list()] gave:
    [None] when it rejected.  Nothing of the object is touched before the
    [await], so the cycle is one step. *)
Definition _pollDevices (listed : option (list PortInfo.t)) (s : NWSerial)
    : NWSerial * list Effect :=
  if negb (_SerialPort s) then (s, [])
  else
    match listed with
    | None => (s, [Log LogErrorPolling])
    | Some systemPorts =>
        let currentPaths := PortInfo.path <$> systemPorts in
        let knownPaths := Device.path <$> ports s in
        let '(ps1, added) := poll_added knownPaths systemPorts (ports s) in
        let '(ps2, removed) := poll_removed currentPaths ps1 ps1 in
        (s <| ports := ps2 |>, added ++ removed)
    end.

Definition loadDevices (listed : option (list PortInfo.t)) (s : NWSerial)
    : NWSerial * list Effect :=
  if negb (_SerialPort s) then (s, [])
  else
    match listed with
    | None => (s, [Log LogErrorLoading])
    | Some systemPorts =>
        (s <| ports := _createPort vendorIdNames <$> systemPorts |>, [])
    end.

End Polling.

Definition getConnectedPort (s : NWSerial) : option Device.t :=
  match connectionId s with
  | IdPath p => find (λ d, bool_decide (Device.path d = p)) (ports s)
  | _ => None
  end.

(** ** Session: synchronous segments of [connect], [disconnect], [send] *)

Definition add_pending (t : Task) (s : NWSerial) : NWSerial :=
  s <| pending := pending s ++ [t] |>.

Definition handle_open (s : NWSerial) (h : nat) : bool :=
  match handles s !! h with
  | Some hd => isOpen hd
  | None => false
  end.

(** [handleReceiveBytes] *)
Definition handleReceiveBytes (detail : list Byte.byte) (s : NWSerial) : NWSerial :=
  s <| bytesReceived := bytesReceived s + byteLength detail |>.

(** Dispatching "receive" runs [handleReceiveBytes] when it is registered. *)
Definition dispatch_receive (chunk : list Byte.byte) (s : NWSerial)
    : NWSerial * list Effect :=
  (if receiveListener s then handleReceiveBytes chunk s else s,
   [Emit (EReceive chunk)]).

(** The "data" handler attached by [connect]. *)
Definition on_data (chunk : list Byte.byte) (s : NWSerial) : NWSerial * list Effect :=
  if reading s then dispatch_receive chunk s else (s, []).

(** [connect(path, options)] up to the point where [port.open] has been
    called.  The [catch] block of the method guards only [ports.find] and
    [dispatchEvent], which do not raise; the promise executor raises (and
    the returned promise rejects) when the module was not loaded. *)
Definition connect (path : string) (baudRate : Z) (s : NWSerial)
    : NWSerial * list Effect * Outcome bool :=
  if connected s then (s, [Log LogAlreadyConnected], Returned true)
  else
    let s := s <| openRequested := true |> <| closeRequested := false |> in
    match find (λ d, bool_decide (Device.path d = path)) (ports s) with
    | None =>
        (s, [Log (LogDeviceNotFound path); Emit (EConnect None)], Returned false)
    | Some device =>
        if _SerialPort s then
          let h := length (handles s) in
          let s := s <| handles := handles s ++ [mkHandle path baudRate false 0] |>
                     <| port := Some h |> in
          (add_pending (OpenCb h path baudRate device) s, [PortOpenCall h], Suspended)
        else (s, [], Threw)
    end.

(** The callback given to [port.open].  It reads [this.port], not the
    handle it was created for. *)
Definition open_callback (path : string) (baudRate : Z) (device : Device.t)
    (err : bool) (s : NWSerial) : NWSerial * list Effect :=
  if err then
    (s <| openRequested := false |> <| port := None |>,
     [Log LogErrorOpening; Emit (EConnect None); Settle (ConnectResult false)])
  else if openCanceled s then
    let s := s <| openRequested := false |> <| openCanceled := false |> in
    match port s with
    | None => (s, [Uncaught])
    | Some p =>
        (add_pending (CancelCloseCb p) s,
         [PortCloseCall p; Settle (ConnectResult false)])
    end
  else
    let info := mkConnectionInfo (Device.vendorId device) (Device.productId device) in
    let s := s <| connected := true |> <| connectionId := IdPath path |>
               <| bitrate := baudRate |> <| bytesReceived := 0 |>
               <| bytesSent := 0 |> <| failed := 0 |>
               <| openRequested := false |> <| reading := true |>
               <| connectionInfo := Some info |> in
    match port s with
    | None => (s, [Uncaught])
    | Some p =>
        let attach hd := hd <| listeners := S (listeners hd) |> in
        (s <| handles := alter attach p (handles s) |>
           <| receiveListener := true |>,
         [AddReceiveListener;
          Log (LogConnectionOpened (connectionId s) baudRate);
          Emit (EConnect (connectionInfo s));
          Settle (ConnectResult true)])
    end.

(** The callback given to [port.close] when an open was canceled. *)
Definition cancel_close_callback (s : NWSerial) : NWSerial * list Effect :=
  (s <| port := None |>, [Emit (EConnect None)]).

(** The [finally] block of [disconnect]. *)
Definition disconnect_finally (s : NWSerial) : NWSerial :=
  if openCanceled s then s <| openCanceled := false |> else s.

(** [disconnect] from the end of the [await] to its [return true]. *)
Definition disconnect_finish (s : NWSerial) : NWSerial * list Effect :=
  let closed := LogConnectionClosed (connectionId s) (bytesSent s) (bytesReceived s) in
  let s := s <| port := None |> <| connectionId := IdFalse |> <| bitrate := 0 |>
             <| connectionInfo := None |> <| closeRequested := false |> in
  (disconnect_finally s, [Log closed; Emit (EDisconnect true)]).

(** The [catch] block of [disconnect], followed by [finally]. *)
Definition disconnect_catch (s : NWSerial) : NWSerial * list Effect :=
  let s := s <| closeRequested := false |> <| connectionInfo := None |> in
  (disconnect_finally s, [Log LogErrorDisconnecting; Emit (EDisconnect false)]).

(** [disconnect()] up to its [await].  The one statement of the [try]
    block that can raise is the call [this.port.close]; [close_throws] says
    whether it does.  When no close is attempted the method runs to its end
    without suspending. *)
Definition disconnect (close_throws : bool) (s : NWSerial)
    : NWSerial * list Effect * Outcome bool :=
  if negb (connected s) then (s, [], Returned true)
  else
    let s := s <| connected := false |> <| transmitting := false |>
               <| reading := false |> in
    if closeRequested s then (s, [], Returned true)
    else
      let s := s <| closeRequested := true |> <| receiveListener := false |> in
      match port s with
      | Some h =>
          if handle_open s h then
            if close_throws then
              let '(s', effs) := disconnect_catch s in
              (s', RemoveReceiveListener :: PortCloseCall h :: effs, Returned false)
            else
              (add_pending (DisconnectCloseCb h) s,
               [RemoveReceiveListener; PortCloseCall h], Suspended)
          else
            let '(s', effs) := disconnect_finish s in
            (s', RemoveReceiveListener :: effs, Returned true)
      | None =>
          let '(s', effs) := disconnect_finish s in
          (s', RemoveReceiveListener :: effs, Returned true)
      end.

(** The callback given to [port.close] by [disconnect]: an error is only
    logged, the promise is resolved either way and the method resumes. *)
Definition disconnect_close_callback (err : bool) (s : NWSerial)
    : NWSerial * list Effect :=
  let '(s', effs) := disconnect_finish s in
  (s', (if err then [Log LogErrorClosing] else []) ++ effs
       ++ [Settle (DisconnectResult true)]).

(** [callback(result)] when a callback was supplied. *)
Definition notify (callback : bool) (n : Z) : list Effect :=
  if callback then [Callback n] else [].

(** [send(data, callback)] up to the point where [port.write] has been
    called.  [write_throws]: [Buffer.from] or [port.write] raises, which
    the [catch] block of the method turns into the zero result. *)
Definition send (data : list Byte.byte) (callback write_throws : bool) (s : NWSerial)
    : NWSerial * list Effect * Outcome Z :=
  match connected s, port s with
  | true, Some h =>
      if write_throws then (s, Log LogErrorSending :: notify callback 0, Returned 0)
      else (add_pending (WriteCb h data callback) s, [PortWriteCall h data], Suspended)
  | _, _ => (s, Log LogSendNotOpen :: notify callback 0, Returned 0)
  end.

(** The callback given to [port.write]: an error rejects the promise and
    the [catch] block answers; otherwise [this.port.drain(resolve)]. *)
Definition write_callback (data : list Byte.byte) (callback err : bool) (s : NWSerial)
    : NWSerial * list Effect :=
  if err then
    (s, Log LogErrorSending :: notify callback 0 ++ [Settle (SendResult 0)])
  else
    match port s with
    | None => (s, [Uncaught])
    | Some p => (add_pending (DrainCb p data callback) s, [PortDrainCall p])
    end.

(** The callback given to [port.drain] is [resolve] itself: whatever the
    library passes to it, the promise is fulfilled and [send] resumes after
    its [await]. *)
Definition drain_callback (data : list Byte.byte) (callback err : bool) (s : NWSerial)
    : NWSerial * list Effect :=
  (s <| bytesSent := bytesSent s + byteLength data |>,
   notify callback (byteLength data) ++ [Settle (SendResult (byteLength data))]).

(** The "error" and "close" handlers attached by [connect].  The promise
    of the [disconnect] they start is dropped. *)
Definition on_error (close_throws : bool) (s : NWSerial) : NWSerial * list Effect :=
  if connected s then
    let '(s', effs, _) := disconnect close_throws s in
    (s', Log LogSerialPortError :: effs)
  else (s, [Log LogSerialPortError]).

Definition on_close (close_throws : bool) (s : NWSerial) : NWSerial * list Effect :=
  if connected s then
    let '(s', effs, _) := disconnect close_throws s in
    (s', Log LogClosedUnexpectedly :: effs)
  else (s, []).

(** ** The event loop *)

(** What the client and the library can do to the object.
    - [CallConnect], [CallDisconnect], [CallSend]: the client calls a method;
      [close_throws] and [write_throws] say whether the library call made in
      that turn raises.
    - [CancelOpen]: the client assigns [openCanceled = true]; nothing in the
      class does.
    - [Fire t err]: the library fires the callback [t], with an error or
      without.
    - [DataEvent], [ErrorEvent], [CloseEvent]: the library emits "data",
      "error" or "close" on the handle [h].
    - [PollTick], [LoadDevices]: a poll cycle or [loadDevices] resumes with
      the outcome of [SerialPort.list()]. *)
Inductive Action :=
| CallConnect (path : string) (baudRate : Z)
| CallDisconnect (close_throws : bool)
| CallSend (data : list Byte.byte) (callback write_throws : bool)
| CancelOpen
| Fire (t : Task) (err : bool)
| DataEvent (h : nat) (chunk : list Byte.byte)
| ErrorEvent (h : nat) (close_throws : bool)
| CloseEvent (h : nat) (close_throws : bool)
| PollTick (listed : option (list PortInfo.t))
| LoadDevices (listed : option (list PortInfo.t)).

(** A callback fires once: its first occurrence leaves the list. *)
Fixpoint remove_first (t : Task) (l : list Task) : list Task :=
  match l with
  | [] => []
  | x :: r => if decide (x = t) then r else x :: remove_first t r
  end.

(** An event of a handle runs every handler attached to it, in turn. *)
Fixpoint run_handlers (n : nat) (f : NWSerial → NWSerial * list Effect)
    (s : NWSerial) : NWSerial * list Effect :=
  match n with
  | O => (s, [])
  | S n =>
      let '(s1, e1) := f s in
      let '(s2, e2) := run_handlers n f s1 in
      (s2, e1 ++ e2)
  end.

Definition handle_listeners (s : NWSerial) (h : nat) : nat :=
  match handles s !! h with
  | Some hd => listeners hd
  | None => 0%nat
  end.

Definition set_handle_open (h : nat) (b : bool) (s : NWSerial) : NWSerial :=
  s <| handles := alter (λ hd, hd <| isOpen := b |>) h (handles s) |>.

(** The library side of a callback: a successful open leaves the handle
    open, a successful close leaves it closed. *)
Definition library_update (t : Task) (err : bool) (s : NWSerial) : NWSerial :=
  if err then s
  else
    match t with
    | OpenCb h _ _ _ => set_handle_open h true s
    | CancelCloseCb h | DisconnectCloseCb h => set_handle_open h false s
    | WriteCb _ _ _ | DrainCb _ _ _ => s
    end.

Definition run_callback (t : Task) (err : bool) (s : NWSerial)
    : NWSerial * list Effect :=
  match t with
  | OpenCb _ path baudRate device => open_callback path baudRate device err s
  | CancelCloseCb _ => cancel_close_callback s
  | DisconnectCloseCb _ => disconnect_close_callback err s
  | WriteCb _ data callback => write_callback data callback err s
  | DrainCb _ data callback => drain_callback data callback err s
  end.

(** The library fires a callback it was given; one that is not in flight
    cannot fire. *)
Definition fire (t : Task) (err : bool) (s : NWSerial) : NWSerial * list Effect :=
  if decide (t ∈ pending s) then
    run_callback t err
      (library_update t err (s <| pending := remove_first t (pending s) |>))
  else (s, []).

(** The promise of a method call, as the caller sees it when the call
    returns control. *)
Definition settle {A} (f : A → Settlement) (rejected : list Effect)
    (r : NWSerial * list Effect * Outcome A) : NWSerial * list Effect :=
  let '(s, effs, o) := r in
  match o with
  | Returned a => (s, effs ++ [Settle (f a)])
  | Suspended => (s, effs)
  | Threw => (s, effs ++ rejected)
  end.

Section Loop.

Variable vendorIdNames : gmap Z string.

(** One turn of the event loop.  A handle that emits "close" is closed by
    then: its [isOpen] reads [false] inside the handlers. *)
Definition step (a : Action) (s : NWSerial) : NWSerial * list Effect :=
  match a with
  | CallConnect path baudRate =>
      settle ConnectResult [Settle ConnectRejected] (connect path baudRate s)
  | CallDisconnect close_throws =>
      settle DisconnectResult [] (disconnect close_throws s)
  | CallSend data callback write_throws =>
      settle SendResult [] (send data callback write_throws s)
  | CancelOpen => (s <| openCanceled := true |>, [])
  | Fire t err => fire t err s
  | DataEvent h chunk => run_handlers (handle_listeners s h) (on_data chunk) s
  | ErrorEvent h close_throws =>
      run_handlers (handle_listeners s h) (on_error close_throws) s
  | CloseEvent h close_throws =>
      let s := set_handle_open h false s in
      run_handlers (handle_listeners s h) (on_close close_throws) s
  | PollTick listed => _pollDevices vendorIdNames listed s
  | LoadDevices listed => loadDevices vendorIdNames listed s
  end.

Fixpoint run (tr : list Action) (s : NWSerial) : NWSerial * list Effect :=
  match tr with
  | [] => (s, [])
  | a :: tr =>
      let '(s1, e1) := step a s in
      let '(s2, e2) := run tr s1 in
      (s2, e1 ++ e2)
  end.

End Loop.

(** ** Observations on effect lists *)

Definition disconnect_payloads (effs : list Effect) : list bool :=
  omap (λ e, match e with Emit (EDisconnect b) => Some b | _ => None end) effs.

Definition connect_payloads (effs : list Effect) : list (option ConnectionInfo) :=
  omap (λ e, match e with Emit (EConnect d) => Some d | _ => None end) effs.

Definition emitted (effs : list Effect) : list Event :=
  omap (λ e, match e with Emit ev => Some ev | _ => None end) effs.

(** A teardown is a [disconnect] that got past its two guards; the first
    thing it does is to unregister [handleReceiveBytes]. *)
Fixpoint teardowns (effs : list Effect) : nat :=
  match effs with
  | [] => 0
  | RemoveReceiveListener :: effs => S (teardowns effs)
  | _ :: effs => teardowns effs
  end.

(** ** States *)

(** An open session as [connect] leaves it: connected on handle [h], which
    is open and carries the one handler triple, reading, counting what it
    receives, and with no teardown under way. *)
Record Open (s : NWSerial) (h : nat) : Prop := {
  open_connected : connected s = true;
  open_closeRequested : closeRequested s = false;
  open_port : port s = Some h;
  open_reading : reading s = true;
  open_listener : receiveListener s = true;
  open_handle : ∃ hd, handles s !! h = Some hd ∧ listeners hd = 1%nat
}.

(** Idle: not connected, nothing requested, no handle referenced. *)
Record Idle (s : NWSerial) : Prop := {
  idle_connected : connected s = false;
  idle_openRequested : openRequested s = false;
  idle_closeRequested : closeRequested s = false;
  idle_port : port s = None
}.

(** A connect suspended on [port.open] for handle [h]. *)
Record Opening (s : NWSerial) (h : nat) (t : Task) : Prop := {
  opening_connected : connected s = false;
  opening_openRequested : openRequested s = true;
  opening_closeRequested : closeRequested s = false;
  opening_port : port s = Some h;
  opening_pending : t ∈ pending s
}.

(** ** Whole calls *)

(** How the close attempted by a teardown ends. *)
Inductive CloseOutcome :=
| CloseOk        (* the callback fires without an error *)
| CloseErr       (* the callback fires with an error *)
| CloseThrows.   (* the call raises *)

Definition close_errored (o : CloseOutcome) : bool :=
  match o with
  | CloseOk => false
  | _ => true
  end.

(** [disconnect()] run to its end with nothing interleaved. *)
Definition disconnect_to_end (o : CloseOutcome) (s : NWSerial)
    : NWSerial * list Effect :=
  let '(s1, e1, r) :=
    disconnect (match o with CloseThrows => true | _ => false end) s in
  match r, port s1 with
  | Suspended, Some h =>
      let '(s2, e2) :=
        fire (DisconnectCloseCb h) (match o with CloseErr => true | _ => false end) s1 in
      (s2, e1 ++ e2)
  | _, _ => (s1, e1)
  end.

(** Whether a step assigns [connected = true]: the open callback of a
    connect in flight firing without an error and without a cancellation. *)
Definition enters_open (a : Action) (s : NWSerial) : bool :=
  match a with
  | Fire (OpenCb h path baudRate device) false =>
      bool_decide (OpenCb h path baudRate device ∈ pending s) && negb (openCanceled s)
  | _ => false
  end.

Definition transport_event (h : nat) (a : Action) : Prop :=
  (∃ ct, a = ErrorEvent h ct) ∨ (∃ ct, a = CloseEvent h ct).

(** ** The statements of the specification that the code does not meet,
    as the specification words them *)

(** "clears port, connectionId, bitrate and connectionInfo, leaves the
    session disconnected, and emits disconnect(true) when the close succeeds
    and disconnect(false) when the close attempt errored". *)
Definition spec_disconnect_post (o : CloseOutcome) (s : NWSerial) : Prop :=
  let '(s', effs) := disconnect_to_end o s in
  port s' = None ∧ connectionId s' = IdFalse ∧ bitrate s' = 0 ∧
  connectionInfo s' = None ∧ connected s' = false ∧
  disconnect_payloads effs = [negb (close_errored o)].

(** "connect while connected on [p] is a no-op success only for the path
    [p]". *)
Definition spec_connect_noop_only_same_path (s : NWSerial) : Prop :=
  ∀ p q baudRate effs,
    connected s = true → connectionId s = IdPath p →
    connect q baudRate s = (s, effs, Returned true) → q = p.

(** "a cycle whose set of enumerated paths equals the known set emits
    nothing and changes nothing; a cycle that adds exactly one new path emits
    exactly one addedDevice, for the descriptor created for that path, and
    nothing else, and leaves at most one descriptor per path". *)
Definition spec_poll_post (vendorIdNames : gmap Z string) (s : NWSerial)
    (systemPorts : list PortInfo.t) : Prop :=
  let '(s', effs) := _pollDevices vendorIdNames (Some systemPorts) s in
  let known := Device.path <$> ports s in
  let current := PortInfo.path <$> systemPorts in
  ((∀ p, p ∈ current ↔ p ∈ known) → emitted effs = [] ∧ ports s' = ports s) ∧
  (∀ portInfo,
     portInfo ∈ systemPorts → PortInfo.path portInfo ∉ known →
     (∀ p, p ∈ current ↔ p ∈ known ∨ p = PortInfo.path portInfo) →
     emitted effs = [EAddedDevice (_createPort vendorIdNames portInfo)] ∧
     NoDup (Device.path <$> ports s')).

(** ** Port selector *)

Module PortHandler.

(** Modelled from the spec: the device descriptors that
    [src/js/port_handler.js], which is not among the sources, keeps in its
    port lists; the fields are those the selector reads and the tests
    build. *)
Record Port := mkPort {
  path : string;
  displayName : string
}.

(** Modelled from the spec: the inputs of the selector that live in the
    [PortHandler] object of [src/js/port_handler.js] (the three ordered device
    groups and the two mode flags) and the selection it shows. *)
Record t := mk {
  currentSerialPorts : list Port;
  currentUsbPorts : list Port;
  currentBluetoothPorts : list Port;
  showVirtualMode : bool;
  showManualMode : bool;
  selectedPort : string          (* portPicker.selectedPort *)
}.

(** [hay.includes(needle)] *)
Fixpoint includes (hay needle : string) : bool :=
  String.prefix needle hay ||
  match hay with
  | EmptyString => false
  | String _ rest => includes rest needle
  end.

Section Selector.

(** The ordered list of bootloader-family name filters, an input of the
    selector that the specification does not enumerate. *)
Variable deviceFilter : list string.

(** Modelled from the spec: the scan order of [selectActivePort] of
    [src/js/port_handler.js]: serial, then USB, then Bluetooth, each group
    in list order. *)
Definition scanned (st : t) : list Port :=
  currentSerialPorts st ++ currentUsbPorts st ++ currentBluetoothPorts st.

(** Modelled from the spec: the filter test of [selectActivePort] of
    [src/js/port_handler.js]: the display name contains one of the filter
    substrings. *)
Definition matches (d : Port) : bool :=
  existsb (includes (displayName d)) deviceFilter.

(** Modelled from the spec: the heuristic step of [selectActivePort] of
    [src/js/port_handler.js], which is not among the sources.  The first
    filter that matches a scanned device wins; among the devices it
    matches the first in scan order is taken. *)
Fixpoint first_match (filters : list string) (devices : list Port) : option Port :=
  match filters with
  | [] => None
  | f :: filters =>
      match find (λ d, includes (displayName d) f) devices with
      | Some d => Some d
      | None => first_match filters devices
      end
  end.

(** Modelled from the spec: [selectActivePort(suggestedDevice)] of
    [src/js/port_handler.js], which is not among the sources.  The
    result is a path, "virtual", "manual" or [undefined] ([None]); the
    selection shown to the user is set to "noselection" in the last
    case. *)
Definition selectActivePort (suggestedDevice : option Port) (st : t)
    : option string * t :=
  match suggestedDevice with
  | Some d => (Some (path d), st)
  | None =>
      match first_match deviceFilter (scanned st) with
      | Some d => (Some (path d), st)
      | None =>
          if showVirtualMode st then (Some "virtual", st)
          else if showManualMode st then (Some "manual", st)
          else (None,
                mk (currentSerialPorts st) (currentUsbPorts st)
                   (currentBluetoothPorts st) (showVirtualMode st)
                   (showManualMode st) "noselection")
      end
  end.

End Selector.

End PortHandler.

(** ** [requestPermissionDevice] and [getDevices] *)

Section Permission.

Variable vendorIdNames : gmap Z string.

(** The list [serialDevices] of [./devices], which is not part of the
    sources at hand: the vendor and product id of each known flight
    controller, as numbers. *)
Variable serialDevices : list (Z * Z).

(** [d.vendorId === p.vendorId] for a number [d.vendorId] of the table:
    [undefined] and NaN equal no number. *)
Definition strict_eq_num (z : Z) (v : JsNum) : bool :=
  match v with
  | Num z' => z =? z'
  | _ => false
  end.

Definition known_flight_controller (p : Device.t) : bool :=
  existsb (λ d, strict_eq_num d.1 (Device.vendorId p) &&
                strict_eq_num d.2 (Device.productId p)) serialDevices.

(** [requestPermissionDevice()]: reload the list, then the first port with
    known ids, else the first port, else [null].  The method resumes after
    [await this.loadDevices()] without anything running in between, so it is
    one step from the outcome of the listing. *)
Definition requestPermissionDevice (listed : option (list PortInfo.t)) (s : NWSerial)
    : NWSerial * list Effect * option Device.t :=
  let '(s', effs) := loadDevices vendorIdNames listed s in
  (s', effs,
   match find known_flight_controller (ports s') with
   | Some knownDevice => Some knownDevice
   | None => head (ports s')
   end).

(** [getDevices()] *)
Definition getDevices (listed : option (list PortInfo.t)) (s : NWSerial)
    : NWSerial * list Effect * list Device.t :=
  let '(s', effs) := loadDevices vendorIdNames listed s in
  (s', effs, ports s').

End Permission.

(** ** The build script: platform selection and release tasks

    [gulpfile.cjs] picks the target platforms from the command line, hands
    them to [nw-builder] one by one and lists the packaging tasks of the
    release.  The file system, the bundler and [nw-builder] itself are
    outside; what is kept is the control flow around them: which platforms
    are selected, which build requests are made, and which packaging tasks
    are listed. *)

Module Gulpfile.

(** How [getInputPlatforms] ends: it returns the selection, or it ends the
    process with [process.exit]. *)
Inductive Completion (A : Type) :=
| Returns (a : A)
| Exits (code : Z).
Arguments Returns {A} a.
Arguments Exits {A} code.

Inductive Console :=
| Log_ignoring_winIco
| Log_building_for (platforms : list string)
| Error_no_suitable_platforms
| Log_no_platforms_to_build
| Log_building (platformStr platform arch : string)
| Log_built (platformStr : string).

(** The class [\w] of a regular expression without the [u] flag: an ASCII
    letter, a digit or the underscore. *)
Definition word_char (a : ascii) : bool :=
  let n := Z.of_N (N_of_ascii a) in
  ((48 <=? n) && (n <=? 57)) || ((65 <=? n) && (n <=? 90)) ||
  (n =? 95) || ((97 <=? n) && (n <=? 122)).

(** The longest run of word characters at the head of a string: what a
    greedy [\w+] takes. *)
Fixpoint word_run (s : string) : string :=
  match s with
  | String a r => if word_char a then String a (word_run r) else EmptyString
  | EmptyString => EmptyString
  end.

(** [s.match(/--(\w+)/)]: the capture of the leftmost match, if any.  The
    expression is not anchored: the match may start anywhere in [s]. *)
Fixpoint match_flag (s : string) : option string :=
  match s with
  | EmptyString => None
  | String a t =>
      if Ascii.eqb a "-" then
        match t with
        | String b r =>
            if Ascii.eqb b "-" then
              match word_run r with
              | EmptyString => match_flag t
              | w => Some w
              end
            else match_flag t
        | EmptyString => None
        end
      else match_flag t
  end.

Definition supportedPlatforms : list string :=
  ["linux64"; "linux32"; "osx64"; "win32"; "win64"; "android"].

(** [supportedPlatforms.indexOf(arg) > -1]. *)
Definition supported (arg : string) : bool :=
  bool_decide (arg ∈ supportedPlatforms).

Definition getDefaultPlatform (os_platform : string) : string :=
  if String.eqb os_platform "darwin" then "osx64"
  else if String.eqb os_platform "linux" then "linux64"
  else if String.eqb os_platform "win32" then "win64"
  else "".

(** The loop of [getInputPlatforms] over [process.argv], from index 3 on:
    the platforms pushed and the lines logged. *)
Fixpoint scan_args (args : list string) (platforms : list string)
    (logs : list Console) : list string * list Console :=
  match args with
  | [] => (platforms, logs)
  | a :: rest =>
      match match_flag a with
      | Some arg =>
          if supported arg then scan_args rest (platforms ++ [arg]) logs
          else if String.eqb arg "nowinicon"
               then scan_args rest platforms (logs ++ [Log_ignoring_winIco])
               else scan_args rest platforms logs
      | None => scan_args rest platforms logs
      end
  end.

Definition getInputPlatforms (argv : list string) (os_platform : string)
    : list Console * Completion (list string) :=
  let '(platforms, logs) := scan_args (drop 3 argv) [] [] in
  let platforms :=
    match platforms with
    | [] =>
        match getDefaultPlatform os_platform with
        | EmptyString => platforms
        | defaultPlatform => platforms ++ [defaultPlatform]
        end
    | _ => platforms
    end in
  match platforms with
  | [] => (logs ++ [Error_no_suitable_platforms], Exits 1)
  | _ => (logs ++ [Log_building_for platforms], Returns platforms)
  end.

(** [getPlatforms] returns a copy of the selection. *)
Definition getPlatforms (SELECTED_PLATFORMS : list string) : list string :=
  SELECTED_PLATFORMS.

(** The platform flags of a command line: the captures, from index 3 on,
    that name a supported platform. *)
Definition platform_flags (argv : list string) : list string :=
  filter (λ arg, supported arg = true) (omap match_flag (drop 3 argv)).

Record Target := mkTarget { target_platform : string; target_arch : string }.

(** [parsePlatform] returns a target or raises [Unknown platform]. *)
Inductive Parse :=
| Parsed (t : Target)
| Throws (msg : string).

Definition parsePlatform (platformStr : string) : Parse :=
  if String.eqb platformStr "osx64" then Parsed (mkTarget "osx" "x64")
  else if String.eqb platformStr "linux64" then Parsed (mkTarget "linux" "x64")
  else if String.eqb platformStr "linux32" then Parsed (mkTarget "linux" "ia32")
  else if String.eqb platformStr "win64" then Parsed (mkTarget "win" "x64")
  else if String.eqb platformStr "win32" then Parsed (mkTarget "win" "ia32")
  else Throws ("Unknown platform: " +:+ platformStr).

(** The fields of [metadata] the build reads; [None] is [undefined] (the
    object is empty until [loadMetadata] has run). *)
Record Metadata := mkMetadata {
  meta_name : option string;
  meta_productName : option string;
}.

(** [x || d] on a string that may be undefined: the empty string is falsy
    too. *)
Definition or_default (x : option string) (d : string) : string :=
  match x with
  | Some (String _ _ as s) => s
  | _ => d
  end.

(** The [app] object of a build request; a field that was never assigned
    is [None]. *)
Record App := mkApp {
  app_name : option string;
  app_icon : option string;
  app_CFBundleDisplayName : option string;
}.

(** What [nwbuild] is called with.  [outDir] is kept as the three
    components given to [path.join]. *)
Record BuildRequest := mkBuildRequest {
  req_flavor : string;
  req_platform : string;
  req_arch : string;
  req_outDir : string * string * string;
  req_app : App;
}.

Definition app_for (metadata : Metadata) (platform : string) : App :=
  if String.eqb platform "osx" then
    mkApp (Some (or_default (meta_productName metadata) "Betaflight Configurator"))
          (Some "./src/images/bf_icon.icns")
          (Some "Betaflight Configurator")
  else if String.eqb platform "win" then
    mkApp (Some (or_default (meta_productName metadata) "Betaflight Configurator"))
          (Some "./src/images/bf_icon.ico")
          None
  else if String.eqb platform "linux" then
    mkApp (Some (or_default (meta_name metadata) "betaflight-app"))
          (Some "./src/images/bf_icon_128.png")
          None
  else mkApp None None None.

(** How [buildNWApps] ends: [done] is called, or the promise of the async
    function is rejected (and [done] never called): by [parsePlatform]
    raising, by [nwbuild] failing, or by the import of [nw-builder]
    failing. *)
Inductive BuildEnd :=
| Done
| Rejected_by_parsePlatform (msg : string)
| Rejected_by_nwbuild (req : BuildRequest)
| Rejected_by_import.

Section Build.

(** [nw-builder]: [None] when its import fails, else whether a build
    request succeeds. *)
Variable nwbuild : option (BuildRequest → bool).
Variable metadata : Metadata.

(** The loop of [buildNWApps] over the platforms: the requests made, the
    lines logged and the way it ends. *)
Fixpoint build_loop (build : BuildRequest → bool) (platforms : list string)
    (flavor dir : string) : list BuildRequest * list Console * BuildEnd :=
  match platforms with
  | [] => ([], [], Done)
  | platformStr :: rest =>
      match parsePlatform platformStr with
      | Parsed (mkTarget platform arch) =>
          let outDir := (dir, or_default (meta_name metadata) "betaflight-app", platformStr) in
          let req := mkBuildRequest flavor platform arch outDir (app_for metadata platform) in
          let line := Log_building platformStr platform arch in
          if build req then
            let '(reqs, logs, e) := build_loop build rest flavor dir in
            (req :: reqs, line :: Log_built platformStr :: logs, e)
          else ([req], [line], Rejected_by_nwbuild req)
      | Throws msg => ([], [], Rejected_by_parsePlatform msg)
      end
  end.

Definition buildNWApps (platforms : list string) (flavor dir : string)
    : list BuildRequest * list Console * BuildEnd :=
  match platforms with
  | [] => ([], [Log_no_platforms_to_build], Done)
  | _ =>
      match nwbuild with
      | None => ([], [], Rejected_by_import)
      | Some build => build_loop build platforms flavor dir
      end
  end.

Definition DIST_DIR : string := "./dist/".
Definition APPS_DIR : string := "./apps/".
Definition DEBUG_DIR : string := "./debug/".

Definition not_android (p : string) : bool := negb (String.eqb p "android").

(** The platform a build request was made for: the last component of its
    output directory. *)
Definition built (req : BuildRequest) : string := (req_outDir req).2.

Definition apps (SELECTED_PLATFORMS : list string) :=
  buildNWApps (filter (λ p, not_android p = true) (getPlatforms SELECTED_PLATFORMS))
              "normal" APPS_DIR.

Definition debug_apps (SELECTED_PLATFORMS : list string) :=
  buildNWApps (filter (λ p, not_android p = true) (getPlatforms SELECTED_PLATFORMS))
              "sdk" DEBUG_DIR.

End Build.

(** What a build request for a buildable platform looks like. *)
Definition well_formed (flavor dir : string) (metadata : Metadata)
    (req : BuildRequest) : Prop :=
  req_flavor req = flavor ∧
  req_platform req ∈ ["osx"; "win"; "linux"] ∧
  req_arch req ∈ ["x64"; "ia32"] ∧
  (req_outDir req).1.1 = dir ∧
  is_Some (app_name (req_app req)) ∧
  is_Some (app_icon (req_app req)).

(** The packaging tasks of a release, named after the function each closure
    calls. *)
Inductive ReleaseTask :=
| release_zip (arch appDirectory : string)
| release_win (arch appDirectory : string)
| release_deb (arch appDirectory : string)
| release_rpm (arch appDirectory : string)
| noop.

Definition tasks_of (appDirectory platform : string) : list ReleaseTask :=
  (if String.prefix "linux" platform
   then [release_zip platform appDirectory; release_deb platform appDirectory;
         release_rpm platform appDirectory]
   else []) ++
  (if String.prefix "win" platform
   then [release_zip platform appDirectory; release_win platform appDirectory]
   else []) ++
  (if String.eqb platform "osx64"
   then [release_zip "osx64" appDirectory]
   else []).

Definition listReleaseTasks (SELECTED_PLATFORMS : list string) (appDirectory : string)
    : list ReleaseTask :=
  let tasks := concat (map (tasks_of appDirectory) (getPlatforms SELECTED_PLATFORMS)) in
  match tasks with
  | [] => [noop]
  | _ => tasks
  end.

(** The platform a zip task packages. *)
Definition zipped (t : ReleaseTask) : option string :=
  match t with
  | release_zip arch _ => Some arch
  | _ => None
  end.

End Gulpfile.

(** ** Counters and teardowns along a run *)

Definition same_counters (s s' : NWSerial) : Prop :=
  bytesSent s' = bytesSent s ∧ bytesReceived s' = bytesReceived s.

Definition counters_le (s s' : NWSerial) : Prop :=
  bytesSent s ≤ bytesSent s' ∧ bytesReceived s ≤ bytesReceived s'.

(** No step of the run is an entry to the open state. *)
Fixpoint no_entry (vendorIdNames : gmap Z string) (tr : list Action)
    (s : NWSerial) : Prop :=
  match tr with
  | [] => True
  | a :: tr =>
      enters_open a s = false ∧
      no_entry vendorIdNames tr (fst (step vendorIdNames a s))
  end.

(** A step that starts no teardown, emits no disconnect event and leaves
    the session disconnected with the same callbacks in flight. *)
Definition quiet (s s' : NWSerial) (effs : list Effect) : Prop :=
  teardowns effs = 0%nat ∧ disconnect_payloads effs = [] ∧
  connected s' = false ∧ pending s' = pending s ∧ port s' = port s ∧
  closeRequested s' = closeRequested s.

(** ** Sample data *)

Definition sample_vendorIdNames : gmap Z string :=
  {[ 1155 := "STM Electronics"%string ]}.

Definition sample_COM3 : PortInfo.t :=
  PortInfo.mk "COM3" (Some "0483"%string) (Some "5740"%string) None.

Definition sample_COM4 : PortInfo.t :=
  PortInfo.mk "COM4" None None (Some "FTDI"%string).

Definition sample_device : Device.t := _createPort sample_vendorIdNames sample_COM3.

Definition sample_data : list Byte.byte := [Byte.x24; Byte.x4d; Byte.x3c].

(** A freshly constructed object that has listed COM3 and COM4. *)
Definition sample_idle : NWSerial :=
  fst (run sample_vendorIdNames
         [LoadDevices (Some [sample_COM3; sample_COM4])] (new_NWSerial true)).

(** ... has then called [connect("COM3", {baudRate: 115200})] ... *)
Definition sample_opening : NWSerial :=
  fst (step sample_vendorIdNames (CallConnect "COM3" 115200) sample_idle).

(** ... and has seen the open succeed. *)
Definition sample_open : NWSerial :=
  fst (step sample_vendorIdNames
         (Fire (OpenCb 0 "COM3" 115200 sample_device) false) sample_opening).


(** The filter names that the tests of the port selector go through. *)
Definition sample_deviceFilter : list string :=
  ["STM Electronics"; "AT32"; "Silicon Labs"; "CP210"; "Geehy";
   "Raspberry Pi Pico"; "SPR"]%string.

(** * Properties *)

(** ** Basic facts *)

Ltac destruct_state s :=
  destruct s as [cn oreq ocan creq tx cinfo cid br sent rcvd fl ps po rd sp rl hs pd].

Lemma elem_of_snoc {A} (l : list A) (x : A) : x ∈ l ++ [x].
Proof. apply elem_of_app; right. by apply list_elem_of_singleton. Qed.

Lemma fire_in_flight t err s :
  t ∈ pending s →
  fire t err s =
  run_callback t err
    (library_update t err (s <| pending := remove_first t (pending s) |>)).
Proof. intros Hin. unfold fire. by destruct (decide _). Qed.

Lemma byteLength_nonneg data : 0 ≤ byteLength data.
Proof. unfold byteLength. lia. Qed.

Lemma teardowns_app e1 e2 : teardowns (e1 ++ e2) = (teardowns e1 + teardowns e2)%nat.
Proof. induction e1 as [|[] e1 IH]; simpl; auto. Qed.

Lemma disconnect_payloads_app e1 e2 :
  disconnect_payloads (e1 ++ e2) = disconnect_payloads e1 ++ disconnect_payloads e2.
Proof. unfold disconnect_payloads. apply omap_app. Qed.

Lemma run_handlers_one f s : run_handlers 1 f s = f s.
Proof. simpl. destruct (f s) as [s1 e1]. by rewrite app_nil_r. Qed.

Lemma settle_fst {A} (f : A → Settlement) rej r : (settle f rej r).1 = r.1.1.
Proof. destruct r as [[s e] [a| |]]; reflexivity. Qed.

Lemma sample_open_Open : Open sample_open 0.
Proof.
  split; try (vm_compute; reflexivity).
  eexists; split; vm_compute; reflexivity.
Qed.

Lemma sample_opening_Opening :
  Opening sample_opening 0 (OpenCb 0 "COM3" 115200 sample_device).
Proof.
  split; try (vm_compute; reflexivity).
  assert (pending sample_opening = [OpenCb 0 "COM3" 115200 sample_device]) as ->
    by (vm_compute; reflexivity).
  apply list_elem_of_here.
Qed.

(** A connect from the idle sample object and a successful open give an
    open session: the states the theorems below speak of are reached. *)
Lemma connect_reaches_Open :
  Idle sample_idle ∧
  run sample_vendorIdNames
    [CallConnect "COM3" 115200; Fire (OpenCb 0 "COM3" 115200 sample_device) false]
    sample_idle
  = (sample_open,
     [PortOpenCall 0; AddReceiveListener;
      Log (LogConnectionOpened (IdPath "COM3") 115200);
      Emit (EConnect (Some (mkConnectionInfo (Num 1155) (Num 22336))));
      Settle (ConnectResult true)]).
Proof. split; [split|]; vm_compute; reflexivity. Qed.

(** The same in general: [connect] on an idle session, for a listed path,
    suspends on [port.open] of a new handle... *)
Lemma connect_from_idle s path baudRate device :
  Idle s → _SerialPort s = true →
  find (λ d, bool_decide (Device.path d = path)) (ports s) = Some device →
  let h := length (handles s) in
  let t := OpenCb h path baudRate device in
  ∃ s', connect path baudRate s = (s', [PortOpenCall h], Suspended) ∧
        Opening s' h t ∧ openCanceled s' = openCanceled s ∧
        handles s' = handles s ++ [mkHandle path baudRate false 0].
Proof.
  intros [Hc Ho Hq Hp] Hsp Hfind.
  destruct_state s; simpl in Hc, Ho, Hq, Hp, Hsp, Hfind; subst.
  unfold connect; simpl. rewrite Hfind. simpl.
  eexists; split; [reflexivity|]. split; [|done].
  split; try reflexivity. apply elem_of_snoc.
Qed.

(** ... and when that open succeeds without a cancellation the session is
    open on that handle, with both counters at 0. *)
Lemma open_success_gives_Open s h path baudRate device hd :
  Opening s h (OpenCb h path baudRate device) → openCanceled s = false →
  handles s !! h = Some hd → listeners hd = 0%nat →
  let s' := (fire (OpenCb h path baudRate device) false s).1 in
  Open s' h ∧ handle_open s' h = true ∧ connectionId s' = IdPath path ∧
  bytesSent s' = 0 ∧ bytesReceived s' = 0.
Proof.
  intros [Hc Ho Hq Hp Hin] Hx Hhd Hn.
  rewrite fire_in_flight by done.
  destruct_state s; simpl in Hc, Ho, Hq, Hp, Hx, Hhd; subst.
  unfold set_handle_open, handle_open; simpl.
  rewrite !list_lookup_alter_eq, Hhd. destruct hd as [hp hb ho hl].
  simpl in Hn; subst hl. simpl.
  repeat split; try reflexivity. simpl.
  rewrite !list_lookup_alter_eq, Hhd. simpl. eauto.
Qed.

(** ** C1: what [disconnect] leaves behind in an open session *)

(** C1, as the specification words it, fails: in the sample open session a
    close whose callback reports an error is followed by
    [disconnect(true)], not [disconnect(false)]. *)
Lemma C1_close_error_still_emits_true : ¬ spec_disconnect_post CloseErr sample_open.
Proof.
  unfold spec_disconnect_post.
  replace (disconnect_to_end CloseErr sample_open)
    with (fst (disconnect_to_end CloseErr sample_open),
          snd (disconnect_to_end CloseErr sample_open))
    by (by destruct (disconnect_to_end _ _)).
  intros (_ & _ & _ & _ & _ & Hp).
  vm_compute in Hp. discriminate Hp.
Qed.

(** C1 (amended): [disconnect()] on an open session leaves it disconnected
    with no close requested and no connection info, and emits one disconnect
    event, whatever the close attempt does.  When the close attempt ends
    through its callback, with or without an error, [port], [connectionId]
    and [bitrate] are cleared too and the payload of the event is [true]. *)
Theorem C1_disconnect_clears_session s h o :
  Open s h →
  let '(s', effs) := disconnect_to_end o s in
  connected s' = false ∧ closeRequested s' = false ∧ connectionInfo s' = None ∧
  length (disconnect_payloads effs) = 1%nat ∧
  (o ≠ CloseThrows →
   port s' = None ∧ connectionId s' = IdFalse ∧ bitrate s' = 0 ∧
   disconnect_payloads effs = [true]).
Proof.
  intros [Hc Hq Hp Hr Hl (hd & Hhd & _)].
  destruct_state s; simpl in Hc, Hq, Hp, Hr, Hl, Hhd; subst.
  unfold disconnect_to_end, disconnect, handle_open. simpl.
  rewrite Hhd.
  destruct (isOpen hd); [destruct o|]; simpl.
  1, 2: rewrite fire_in_flight by apply elem_of_snoc; simpl.
  all: destruct ocan; simpl; repeat split; try reflexivity; congruence.
Qed.

Lemma C1_disconnect_clears_session_witness :
  Open sample_open 0 ∧
  let '(s', effs) := disconnect_to_end CloseErr sample_open in
  connected s' = false ∧ closeRequested s' = false ∧ connectionInfo s' = None ∧
  length (disconnect_payloads effs) = 1%nat ∧
  (CloseErr ≠ CloseThrows →
   port s' = None ∧ connectionId s' = IdFalse ∧ bitrate s' = 0 ∧
   disconnect_payloads effs = [true]).
Proof.
  split; [exact sample_open_Open|].
  apply (C1_disconnect_clears_session sample_open 0%nat CloseErr).
  exact sample_open_Open.
Defined.

(** When the close call itself raises, the [catch] block answers: the
    event carries [false], the method returns [false] and the port reference
    is kept. *)
Lemma disconnect_close_throws s h :
  Open s h → handle_open s h = true →
  ∃ s', disconnect true s
        = (s', [RemoveReceiveListener; PortCloseCall h;
                Log LogErrorDisconnecting; Emit (EDisconnect false)],
           Returned false)
        ∧ connected s' = false ∧ port s' = Some h.
Proof.
  intros [Hc Hq Hp Hr Hl _] Ho.
  destruct_state s; simpl in Hc, Hq, Hp, Hr, Hl; subst.
  unfold handle_open in Ho; simpl in Ho.
  unfold disconnect, handle_open; simpl. rewrite Ho; simpl.
  eexists; split; [reflexivity|]. by destruct ocan.
Qed.

(** ** C2: [connect] on a connected session *)

(** C2, as the specification words it, fails: the sample session is open
    on COM3 and [connect("COM4")] returns [true] without changing it. *)
Lemma C2_other_path_is_noop_too : ¬ spec_connect_noop_only_same_path sample_open.
Proof.
  intros H.
  specialize (H "COM3"%string "COM4"%string 9600 [Log LogAlreadyConnected]).
  discriminate H; vm_compute; reflexivity.
Qed.

(** C2 (amended): on a connected session [connect(q, options)] returns
    [true] at once and changes nothing, for every path [q], the connected
    one or another. *)
Theorem C2_connect_when_connected_is_noop s q baudRate :
  connected s = true →
  connect q baudRate s = (s, [Log LogAlreadyConnected], Returned true).
Proof. intros Hc. unfold connect. by rewrite Hc. Qed.

Lemma C2_connect_when_connected_is_noop_witness :
  connected sample_open = true ∧
  connect "COM4" 9600 sample_open
  = (sample_open, [Log LogAlreadyConnected], Returned true).
Proof.
  split; [vm_compute; reflexivity|].
  apply (C2_connect_when_connected_is_noop sample_open "COM4"%string 9600).
  vm_compute; reflexivity.
Defined.

(** ** C7: [disconnect] when not connected *)

(** C7: on a session that is not connected, [disconnect()] returns [true]
    and does nothing; called twice in a row it returns [true] both times and
    no disconnect event (no event at all) is emitted. *)
Theorem C7_disconnect_idempotent_when_idle vendorIdNames s ct1 ct2 :
  connected s = false →
  disconnect ct1 s = (s, [], Returned true) ∧
  run vendorIdNames [CallDisconnect ct1; CallDisconnect ct2] s
  = (s, [Settle (DisconnectResult true); Settle (DisconnectResult true)]) ∧
  emitted (snd (run vendorIdNames [CallDisconnect ct1; CallDisconnect ct2] s)) = [].
Proof.
  intros Hc.
  assert (Hd : ∀ ct, disconnect ct s = (s, [], Returned true)).
  { intros ct. unfold disconnect. by rewrite Hc. }
  split; [apply Hd|].
  assert (Hr : run vendorIdNames [CallDisconnect ct1; CallDisconnect ct2] s
               = (s, [Settle (DisconnectResult true); Settle (DisconnectResult true)])).
  { simpl. rewrite Hd; simpl. rewrite Hd; simpl. reflexivity. }
  split; [exact Hr|]. by rewrite Hr.
Qed.

Lemma C7_disconnect_idempotent_when_idle_witness :
  connected sample_idle = false ∧
  (disconnect false sample_idle = (sample_idle, [], Returned true) ∧
   run sample_vendorIdNames [CallDisconnect false; CallDisconnect false] sample_idle
   = (sample_idle, [Settle (DisconnectResult true); Settle (DisconnectResult true)]) ∧
   emitted
     (snd (run sample_vendorIdNames
             [CallDisconnect false; CallDisconnect false] sample_idle)) = []).
Proof.
  split; [vm_compute; reflexivity|].
  apply (C7_disconnect_idempotent_when_idle sample_vendorIdNames sample_idle false false).
  vm_compute; reflexivity.
Defined.

(** ** C10: [send] on a session that is not open *)

(** C10: when the session is not connected, or holds no port, [send]
    settles with [{bytesSent: 0}] at once, hands that result to the callback
    when there is one, dispatches no event and leaves every field as it
    was. *)
Theorem C10_send_when_not_open s data callback write_throws :
  connected s = false ∨ port s = None →
  send data callback write_throws s
  = (s, Log LogSendNotOpen :: notify callback 0, Returned 0) ∧
  emitted (Log LogSendNotOpen :: notify callback 0) = [] ∧
  notify true 0 = [Callback 0] ∧ notify false 0 = [].
Proof.
  intros H. split.
  - unfold send. destruct H as [-> | ->]; [done|]. by destruct (connected s).
  - by destruct callback.
Qed.

Lemma C10_send_when_not_open_witness :
  (connected sample_idle = false ∨ port sample_idle = None) ∧
  (send sample_data true false sample_idle
   = (sample_idle, Log LogSendNotOpen :: notify true 0, Returned 0) ∧
   emitted (Log LogSendNotOpen :: notify true 0) = [] ∧
   notify true 0 = [Callback 0] ∧ notify false 0 = []).
Proof.
  split; [left; vm_compute; reflexivity|].
  apply (C10_send_when_not_open sample_idle sample_data true false).
  left; vm_compute; reflexivity.
Defined.

(** ** C6: a failing write or drain *)

(** The half of C6 that holds: when the write callback reports an error,
    [send] settles with [{bytesSent: 0}], no event is dispatched and the
    session is what it was before the call (only the callback in flight has
    come and gone). *)
Lemma send_write_failure_changes_nothing s h data callback :
  Open s h →
  let '(s1, e1, r) := send data callback false s in
  let '(s2, e2) := fire (WriteCb h data callback) true s1 in
  r = Suspended ∧ e1 = [PortWriteCall h data] ∧
  e2 = Log LogErrorSending :: notify callback 0 ++ [Settle (SendResult 0)] ∧
  emitted (e1 ++ e2) = [] ∧
  s2 = s <| pending := pending s2 |>.
Proof.
  intros [Hc Hq Hp Hr Hl _].
  destruct_state s; simpl in Hc, Hq, Hp, Hr, Hl; subst.
  unfold send; simpl.
  rewrite fire_in_flight by apply elem_of_snoc.
  simpl. repeat split. by destruct callback.
Qed.

(** C6 fails on the drain half.  The sample session is open; [send] of
    three bytes is written without error, then the drain callback reports an
    error: since the callback is [resolve] itself the promise is fulfilled,
    [bytesSent] goes from 0 to 3 and the call settles with
    [{bytesSent: 3}]. *)
Theorem C6_drain_failure_counts_as_sent :
  bytesSent sample_open = 0 ∧
  run sample_vendorIdNames
    [CallSend sample_data true false;
     Fire (WriteCb 0 sample_data true) false;
     Fire (DrainCb 0 sample_data true) true] sample_open
  = (sample_open <| bytesSent := 3 |>,
     [PortWriteCall 0 sample_data; PortDrainCall 0; Callback 3;
      Settle (SendResult 3)]).
Proof. split; vm_compute; reflexivity. Qed.

(** ** C9: an open that was canceled *)

Lemma fire_canceled_open s h path baudRate device :
  Opening s h (OpenCb h path baudRate device) → openCanceled s = true →
  fire (OpenCb h path baudRate device) false s =
  (add_pending (CancelCloseCb h)
     (set_handle_open h true
        (s <| pending := remove_first (OpenCb h path baudRate device) (pending s) |>)
        <| openRequested := false |> <| openCanceled := false |>),
   [PortCloseCall h; Settle (ConnectResult false)]).
Proof.
  intros [Hc Ho Hq Hp Hin] Hx.
  rewrite fire_in_flight by done.
  destruct_state s; simpl in Hc, Ho, Hq, Hp, Hx; subst.
  reflexivity.
Qed.

(** C9: a connect is suspended on [port.open] for handle [h] and the
    client has asked to cancel it.  When the open succeeds the callback at
    once calls [close] on [h] and resolves the connect with [false]; when
    that close is over the session is idle (not connected, nothing requested,
    no port reference), [connect(false)] has been dispatched, and the handle
    is closed if the close succeeded. *)
Theorem C9_canceled_open_is_torn_down s h path baudRate device closeErr :
  Opening s h (OpenCb h path baudRate device) → openCanceled s = true →
  let '(s1, e1) := fire (OpenCb h path baudRate device) false s in
  let '(s2, e2) := fire (CancelCloseCb h) closeErr s1 in
  e1 = [PortCloseCall h; Settle (ConnectResult false)] ∧
  connected s1 = false ∧
  connect_payloads (e1 ++ e2) = [None] ∧
  Idle s2 ∧ openCanceled s2 = false ∧
  (closeErr = false → handle_open s2 h = false).
Proof.
  intros Ho Hx.
  rewrite (fire_canceled_open s h path baudRate device Ho Hx).
  destruct Ho as [Hc Ho Hq Hp Hin].
  destruct_state s; simpl in Hc, Ho, Hq, Hp, Hx; subst.
  unfold set_handle_open; simpl.
  rewrite fire_in_flight by apply elem_of_snoc.
  destruct closeErr; simpl; repeat split; try discriminate.
  intros _. unfold handle_open; simpl.
  do 2 rewrite list_lookup_alter_eq. by destruct (hs !! h) as [[]|].
Qed.

Lemma C9_canceled_open_is_torn_down_witness :
  let s := (step sample_vendorIdNames CancelOpen sample_opening).1 in
  (Opening s 0 (OpenCb 0 "COM3" 115200 sample_device) ∧ openCanceled s = true) ∧
  let '(s1, e1) := fire (OpenCb 0 "COM3" 115200 sample_device) false s in
  let '(s2, e2) := fire (CancelCloseCb 0) false s1 in
  e1 = [PortCloseCall 0; Settle (ConnectResult false)] ∧
  connected s1 = false ∧
  connect_payloads (e1 ++ e2) = [None] ∧
  Idle s2 ∧ openCanceled s2 = false ∧
  (false = false → handle_open s2 0 = false).
Proof.
  assert (Ho : Opening (step sample_vendorIdNames CancelOpen sample_opening).1 0
                 (OpenCb 0 "COM3" 115200 sample_device)).
  { split; try (vm_compute; reflexivity).
    assert (pending (step sample_vendorIdNames CancelOpen sample_opening).1
            = [OpenCb 0 "COM3" 115200 sample_device]) as ->
      by (vm_compute; reflexivity).
    apply list_elem_of_here. }
  split; [split; [exact Ho | vm_compute; reflexivity]|].
  apply (C9_canceled_open_is_torn_down
           (step sample_vendorIdNames CancelOpen sample_opening).1
           0%nat "COM3"%string 115200 sample_device false Ho).
  vm_compute; reflexivity.
Defined.

(** After the canceled connect the same path can be connected again. *)
Lemma reconnect_after_canceled_open :
  let tr1 := [CallConnect "COM3" 115200; CancelOpen;
              Fire (OpenCb 0 "COM3" 115200 sample_device) false;
              Fire (CancelCloseCb 0) false] in
  let tr2 := [CallConnect "COM3" 115200;
              Fire (OpenCb 1 "COM3" 115200 sample_device) false] in
  let s1 := (run sample_vendorIdNames tr1 sample_idle).1 in
  let s2 := (run sample_vendorIdNames tr2 s1).1 in
  Idle s1 ∧ handle_open s1 0 = false ∧
  connect_payloads (run sample_vendorIdNames tr1 sample_idle).2 = [None] ∧
  Open s2 1 ∧ handle_open s2 1 = true.
Proof.
  repeat split; try (vm_compute; reflexivity).
  eexists; split; vm_compute; reflexivity.
Qed.

(** ** C4: the byte counters *)

Lemma disconnect_counters ct s : same_counters s (disconnect ct s).1.1.
Proof.
  destruct_state s.
  unfold same_counters, disconnect, disconnect_catch, disconnect_finish,
    disconnect_finally, add_pending, handle_open; simpl.
  repeat case_match; simplify_eq; simpl; auto.
Qed.

Lemma connect_counters path baudRate s : same_counters s (connect path baudRate s).1.1.
Proof.
  destruct_state s. unfold same_counters, connect, add_pending; simpl.
  repeat case_match; simplify_eq; simpl; auto.
Qed.

Lemma send_counters data callback write_throws s :
  same_counters s (send data callback write_throws s).1.1.
Proof.
  destruct_state s. unfold same_counters, send, add_pending; simpl.
  repeat case_match; simplify_eq; simpl; auto.
Qed.

Lemma poll_counters vendorIdNames listed s :
  same_counters s (_pollDevices vendorIdNames listed s).1.
Proof.
  destruct_state s. unfold same_counters, _pollDevices; simpl.
  repeat case_match; simplify_eq; simpl; auto.
Qed.

Lemma load_counters vendorIdNames listed s :
  same_counters s (loadDevices vendorIdNames listed s).1.
Proof.
  destruct_state s. unfold same_counters, loadDevices; simpl.
  repeat case_match; simplify_eq; simpl; auto.
Qed.

Lemma on_data_counters chunk s :
  bytesSent (on_data chunk s).1 = bytesSent s ∧
  bytesReceived s ≤ bytesReceived (on_data chunk s).1.
Proof.
  destruct_state s.
  unfold on_data, dispatch_receive, handleReceiveBytes; simpl.
  pose proof (byteLength_nonneg chunk).
  repeat case_match; simpl; lia.
Qed.

Lemma on_error_counters ct s : same_counters s (on_error ct s).1.
Proof.
  unfold on_error. destruct (connected s); [|by split].
  pose proof (disconnect_counters ct s) as H.
  by destruct (disconnect ct s) as [[s' e] o].
Qed.

Lemma on_close_counters ct s : same_counters s (on_close ct s).1.
Proof.
  unfold on_close. destruct (connected s); [|by split].
  pose proof (disconnect_counters ct s) as H.
  by destruct (disconnect ct s) as [[s' e] o].
Qed.

Lemma run_handlers_invariant (R : NWSerial → NWSerial → Prop) n f s :
  (∀ s, R s s) → (∀ s1 s2 s3, R s1 s2 → R s2 s3 → R s1 s3) →
  (∀ s, R s (f s).1) → R s (run_handlers n f s).1.
Proof.
  intros Hrefl Htrans Hf. revert s. induction n as [|n IH]; intros s; simpl.
  - apply Hrefl.
  - specialize (Hf s). destruct (f s) as [s1 e1]. specialize (IH s1).
    destruct (run_handlers n f s1) as [s2 e2]. simpl in *. eauto.
Qed.

Lemma same_counters_refl s : same_counters s s.
Proof. by split. Qed.

Lemma same_counters_trans s1 s2 s3 :
  same_counters s1 s2 → same_counters s2 s3 → same_counters s1 s3.
Proof. unfold same_counters. intros [] []. split; congruence. Qed.

Lemma same_counters_le s s' : same_counters s s' → counters_le s s'.
Proof. unfold same_counters, counters_le. lia. Qed.

Lemma set_handle_open_counters h b s : same_counters s (set_handle_open h b s).
Proof. by destruct_state s. Qed.

Lemma library_update_fields t err s :
  same_counters s (library_update t err s) ∧
  openCanceled (library_update t err s) = openCanceled s.
Proof.
  destruct_state s. unfold library_update, set_handle_open.
  by repeat case_match.
Qed.

(** What the firing of a callback does to the counters: the open callback
    of an entry to the open state zeroes both, the drain callback adds the
    length of the data to [bytesSent], every other callback leaves both. *)
Lemma fire_counters t err s :
  let s' := (fire t err s).1 in
  if enters_open (Fire t err) s
  then connected s' = true ∧ bytesSent s' = 0 ∧ bytesReceived s' = 0
  else
    bytesReceived s' = bytesReceived s ∧
    match t with
    | DrainCb _ data _ =>
        bytesSent s' = bytesSent s ∨ bytesSent s' = bytesSent s + byteLength data
    | _ => bytesSent s' = bytesSent s
    end.
Proof.
  unfold enters_open, fire.
  destruct (decide (t ∈ pending s)) as [Hin|Hin].
  2:{ destruct t; try destruct err; rewrite ?bool_decide_eq_false_2 by done;
      simpl; auto. }
  assert (Hb : bool_decide (t ∈ pending s) = true) by (by apply bool_decide_eq_true_2).
  pose proof (library_update_fields t err
                (s <| pending := remove_first t (pending s) |>)) as [[Hs Hr] Hx].
  assert (Hs' : bytesSent (s <| pending := remove_first t (pending s) |>) = bytesSent s)
    by (by destruct_state s).
  assert (Hr' : bytesReceived (s <| pending := remove_first t (pending s) |>)
                = bytesReceived s) by (by destruct_state s).
  assert (Hx' : openCanceled (s <| pending := remove_first t (pending s) |>)
                = openCanceled s) by (by destruct_state s).
  rewrite Hs' in Hs. rewrite Hr' in Hr. rewrite Hx' in Hx.
  set (s0 := library_update t err _) in *. clearbody s0.
  rewrite <- Hs, <- Hr, <- Hx.
  destruct t; try destruct err; rewrite ?Hb;
    clear Hs Hr Hx Hs' Hr' Hx' Hin Hb s; destruct_state s0;
    unfold run_callback, open_callback, cancel_close_callback,
      disconnect_close_callback, disconnect_finish, disconnect_finally,
      write_callback, drain_callback, add_pending; simpl;
    repeat case_match; simplify_eq; simpl; auto.
Qed.

Lemma step_counters vendorIdNames a s :
  enters_open a s = false → counters_le s (step vendorIdNames a s).1.
Proof.
  intros He. destruct a; simpl step.
  - rewrite settle_fst. apply same_counters_le, connect_counters.
  - rewrite settle_fst. apply same_counters_le, disconnect_counters.
  - rewrite settle_fst. apply same_counters_le, send_counters.
  - apply same_counters_le. by destruct_state s.
  - pose proof (fire_counters t err s) as H. rewrite He in H.
    destruct H as [Hr Hs]. pose proof (byteLength_nonneg) as Hn.
    unfold counters_le. destruct t; try specialize (Hn data); lia.
  - apply run_handlers_invariant;
      [intros; unfold counters_le; lia | unfold counters_le; intros; lia |].
    intros s0. pose proof (on_data_counters chunk s0). unfold counters_le. lia.
  - apply same_counters_le, run_handlers_invariant;
      eauto using same_counters_refl, same_counters_trans, on_error_counters.
  - apply same_counters_le.
    apply (same_counters_trans _ (set_handle_open h false s));
      [apply set_handle_open_counters|].
    apply run_handlers_invariant;
      eauto using same_counters_refl, same_counters_trans, on_close_counters.
  - apply same_counters_le, poll_counters.
  - apply same_counters_le, load_counters.
Qed.

(** The counters change in three places only. *)
Lemma step_counters_change vendorIdNames a s :
  (bytesSent (step vendorIdNames a s).1 ≠ bytesSent s →
   enters_open a s = true ∨ ∃ h data callback err, a = Fire (DrainCb h data callback) err) ∧
  (bytesReceived (step vendorIdNames a s).1 ≠ bytesReceived s →
   enters_open a s = true ∨ ∃ h chunk, a = DataEvent h chunk).
Proof.
  assert (Hsame : ∀ s', same_counters s s' →
            (bytesSent s' ≠ bytesSent s → False) ∧
            (bytesReceived s' ≠ bytesReceived s → False)).
  { intros s' [H1 H2]. split; congruence. }
  destruct a; simpl step.
  1-3: rewrite settle_fst.
  1: destruct (Hsame _ (connect_counters path baudRate s)); split; intros; exfalso; auto.
  1: destruct (Hsame _ (disconnect_counters close_throws s)); split; intros; exfalso; auto.
  1: destruct (Hsame _ (send_counters data callback write_throws s));
       split; intros; exfalso; auto.
  - split; intros H; exfalso; apply H; by destruct_state s.
  - pose proof (fire_counters t err s) as H.
    destruct (enters_open (Fire t err) s); [by split; left|].
    destruct H as [Hr Hs]. split; [|congruence].
    intros Hne. right. destruct t; try congruence. eauto.
  - split; [|eauto].
    intros Hne. exfalso. apply Hne.
    apply (run_handlers_invariant (λ s s', bytesSent s' = bytesSent s));
      [done | congruence | apply on_data_counters].
  - assert (same_counters s
              (run_handlers (handle_listeners s h) (on_error close_throws) s).1) as H
      by (apply run_handlers_invariant;
          eauto using same_counters_refl, same_counters_trans, on_error_counters).
    destruct (Hsame _ H). split; intros; exfalso; auto.
  - assert (same_counters s
              (run_handlers (handle_listeners (set_handle_open h false s) h)
                 (on_close close_throws) (set_handle_open h false s)).1) as H.
    { apply (same_counters_trans _ (set_handle_open h false s));
        [apply set_handle_open_counters|].
      apply run_handlers_invariant;
        eauto using same_counters_refl, same_counters_trans, on_close_counters. }
    destruct (Hsame _ H). split; intros; exfalso; auto.
  - destruct (Hsame _ (poll_counters vendorIdNames listed s)); split; intros; exfalso; auto.
  - destruct (Hsame _ (load_counters vendorIdNames listed s)); split; intros; exfalso; auto.
Qed.

Lemma run_counters vendorIdNames tr s :
  no_entry vendorIdNames tr s → counters_le s (run vendorIdNames tr s).1.
Proof.
  revert s. induction tr as [|a tr IH]; intros s; simpl.
  - intros _. unfold counters_le. lia.
  - intros [He Hno]. pose proof (step_counters vendorIdNames a s He) as H1.
    destruct (step vendorIdNames a s) as [s1 e1]. simpl in *.
    specialize (IH s1 Hno). destruct (run vendorIdNames tr s1) as [s2 e2]. simpl in *.
    unfold counters_le in *. lia.
Qed.

Lemma data_event_on_open vendorIdNames s h chunk :
  Open s h →
  step vendorIdNames (DataEvent h chunk) s
  = (s <| bytesReceived := bytesReceived s + byteLength chunk |>, [Emit (EReceive chunk)]).
Proof.
  intros [Hc Hq Hp Hr Hl (hd & Hhd & Hn)].
  destruct_state s; simpl in Hc, Hq, Hp, Hr, Hl, Hhd; subst.
  simpl step. unfold handle_listeners; simpl. rewrite Hhd, Hn, run_handlers_one.
  reflexivity.
Qed.

(** A [send] on a connected session that has a port hands the data to
    [port.write] and waits for its callback. *)
Lemma send_registers_write vendorIdNames s h data callback :
  connected s = true → port s = Some h →
  step vendorIdNames (CallSend data callback false) s
  = (add_pending (WriteCb h data callback) s, [PortWriteCall h data]).
Proof.
  intros Hc Hp. destruct_state s; simpl in Hc, Hp; subst. reflexivity.
Qed.

(** The write callback, fired without an error while the object has a port,
    hands [resolve] to [port.drain] of that port and touches nothing else. *)
Lemma write_registers_drain s h p data callback :
  WriteCb h data callback ∈ pending s → port s = Some p →
  fire (WriteCb h data callback) false s
  = (s <| pending := remove_first (WriteCb h data callback) (pending s)
                     ++ [DrainCb p data callback] |>,
     [PortDrainCall p]).
Proof.
  intros Hin Hp. rewrite fire_in_flight by done.
  destruct_state s; simpl in Hp; subst. reflexivity.
Qed.

(** The drain callback, fired with an error or without, resumes the [send]
    after its [await]. *)
Lemma drain_completes_send s h data callback err :
  DrainCb h data callback ∈ pending s →
  fire (DrainCb h data callback) err s
  = (s <| pending := remove_first (DrainCb h data callback) (pending s) |>
       <| bytesSent := bytesSent s + byteLength data |>,
     notify callback (byteLength data) ++ [Settle (SendResult (byteLength data))]).
Proof.
  intros Hin. rewrite fire_in_flight by done.
  destruct_state s. by destruct err.
Qed.

(** A whole [send]: the call, its write callback without an error, its
    drain callback. *)
Lemma send_to_end vendorIdNames s h data callback err :
  connected s = true → port s = Some h →
  ∃ pd',
    run vendorIdNames
      [CallSend data callback false;
       Fire (WriteCb h data callback) false;
       Fire (DrainCb h data callback) err] s
    = (s <| pending := pd' |> <| bytesSent := bytesSent s + byteLength data |>,
       [PortWriteCall h data; PortDrainCall h]
       ++ notify callback (byteLength data)
       ++ [Settle (SendResult (byteLength data))]).
Proof.
  intros Hc Hp. destruct_state s; simpl in Hc, Hp; subst. cbn [run].
  rewrite (send_registers_write _ _ h) by done.
  change (step vendorIdNames (Fire ?t ?e) ?x) with (fire t e x).
  rewrite (write_registers_drain _ h h); [| apply elem_of_snoc | done].
  rewrite drain_completes_send by apply elem_of_snoc.
  eexists. simpl. rewrite app_nil_r. reflexivity.
Qed.

(** C4: (1) a step that enters the open state, a first connect or a
    reconnect alike, leaves both counters at 0; (2) a successful
    [send(data)] on a connected session, from the call through its write
    callback to its drain callback, adds the byte length of [data] to
    [bytesSent], once, changes nothing else of the object but the callbacks
    in flight, and settles the call, once, with that length; step by step:
    the call hands [data] to [port.write] and registers the write callback
    for this very [data], the write callback fired without an error
    registers the drain callback for the same [data] and changes no
    counter, and the drain callback adds the byte length of [data] to
    [bytesSent] and settles the call with that length, in whatever state
    they fire; (3) a chunk arriving on the handle of an open session adds
    its byte length to [bytesReceived] and is dispatched as one receive
    event, and [handleReceiveBytes] adds the byte length of what it is
    given in every state; (4) [bytesSent] changes in no step other than (1)
    and the drain callback of (2), and [bytesReceived] in no step other
    than (1) and (3); (5) along any run that contains no entry to the open
    state neither counter decreases. *)
Theorem C4_byte_counters vendorIdNames :
  (∀ a s, enters_open a s = true →
     let s' := (step vendorIdNames a s).1 in
     connected s' = true ∧ bytesSent s' = 0 ∧ bytesReceived s' = 0) ∧
  (∀ s h data callback err, connected s = true → port s = Some h →
     let '(s', effs) :=
       run vendorIdNames
         [CallSend data callback false;
          Fire (WriteCb h data callback) false;
          Fire (DrainCb h data callback) err] s in
     bytesSent s' = bytesSent s + byteLength data ∧
     bytesReceived s' = bytesReceived s ∧
     s' = s <| pending := pending s' |> <| bytesSent := bytesSent s' |> ∧
     effs = [PortWriteCall h data; PortDrainCall h]
            ++ notify callback (byteLength data)
            ++ [Settle (SendResult (byteLength data))]) ∧
  (∀ s h data callback, connected s = true → port s = Some h →
     step vendorIdNames (CallSend data callback false) s
     = (s <| pending := pending s ++ [WriteCb h data callback] |>,
        [PortWriteCall h data])) ∧
  (∀ s h p data callback, WriteCb h data callback ∈ pending s → port s = Some p →
     step vendorIdNames (Fire (WriteCb h data callback) false) s
     = (s <| pending := remove_first (WriteCb h data callback) (pending s)
                        ++ [DrainCb p data callback] |>,
        [PortDrainCall p])) ∧
  (∀ s h data callback err, DrainCb h data callback ∈ pending s →
     let '(s', effs) := step vendorIdNames (Fire (DrainCb h data callback) err) s in
     bytesSent s' = bytesSent s + byteLength data ∧
     bytesReceived s' = bytesReceived s ∧
     Settle (SendResult (byteLength data)) ∈ effs) ∧
  (∀ s h chunk, Open s h →
     let '(s', effs) := step vendorIdNames (DataEvent h chunk) s in
     bytesReceived s' = bytesReceived s + byteLength chunk ∧
     bytesSent s' = bytesSent s ∧
     emitted effs = [EReceive chunk]) ∧
  (∀ s chunk,
     bytesReceived (handleReceiveBytes chunk s) = bytesReceived s + byteLength chunk) ∧
  (∀ a s,
     (bytesSent (step vendorIdNames a s).1 ≠ bytesSent s →
      enters_open a s = true ∨
      ∃ h data callback err, a = Fire (DrainCb h data callback) err) ∧
     (bytesReceived (step vendorIdNames a s).1 ≠ bytesReceived s →
      enters_open a s = true ∨ ∃ h chunk, a = DataEvent h chunk)) ∧
  (∀ tr s, no_entry vendorIdNames tr s →
     bytesSent s ≤ bytesSent (run vendorIdNames tr s).1 ∧
     bytesReceived s ≤ bytesReceived (run vendorIdNames tr s).1).
Proof.
  repeat apply conj.
  - intros a s He. destruct a; try discriminate He. simpl step.
    pose proof (fire_counters t err s) as H. by rewrite He in H.
  - intros s h data callback err Hc Hp.
    destruct (send_to_end vendorIdNames s h data callback err Hc Hp) as [pd' ->].
    by destruct_state s.
  - intros s h data callback Hc Hp.
    by rewrite (send_registers_write _ s h).
  - intros s h p data callback Hin Hp.
    exact (write_registers_drain s h p data callback Hin Hp).
  - intros s h data callback err Hin. simpl step.
    rewrite fire_in_flight by done.
    destruct_state s. destruct err; simpl; repeat split;
      apply elem_of_app; right; apply list_elem_of_here.
  - intros s h chunk Ho. rewrite (data_event_on_open _ s h chunk Ho).
    by destruct_state s.
  - intros s chunk. by destruct_state s.
  - apply step_counters_change.
  - apply run_counters.
Qed.

Lemma C4_byte_counters_witness :
  (connected sample_open = true ∧ port sample_open = Some 0%nat ∧
   let '(s', effs) :=
     run sample_vendorIdNames
       [CallSend sample_data true false;
        Fire (WriteCb 0 sample_data true) false;
        Fire (DrainCb 0 sample_data true) false] sample_open in
   bytesSent s' = bytesSent sample_open + byteLength sample_data ∧
   bytesReceived s' = bytesReceived sample_open ∧
   s' = sample_open <| pending := pending s' |> <| bytesSent := bytesSent s' |> ∧
   effs = [PortWriteCall 0 sample_data; PortDrainCall 0]
          ++ notify true (byteLength sample_data)
          ++ [Settle (SendResult (byteLength sample_data))]) ∧
  (Open sample_open 0 ∧
   let '(s', effs) := step sample_vendorIdNames (DataEvent 0 sample_data) sample_open in
   bytesReceived s' = bytesReceived sample_open + byteLength sample_data ∧
   bytesSent s' = bytesSent sample_open ∧
   emitted effs = [EReceive sample_data]).
Proof.
  pose proof (C4_byte_counters sample_vendorIdNames)
    as (_ & Hsend & _ & _ & _ & Hchunk & _).
  split.
  - split; [reflexivity|]. split; [reflexivity|].
    apply (Hsend sample_open 0%nat sample_data true false); reflexivity.
  - split; [exact sample_open_Open|].
    apply (Hchunk sample_open 0%nat sample_data). exact sample_open_Open.
Defined.

(** A session, a teardown and a second session on the sample object: the
    counters of the first session are gone when the second one opens. *)
Lemma reconnect_resets_counters :
  let first := [CallSend sample_data false false;
                Fire (WriteCb 0 sample_data false) false;
                Fire (DrainCb 0 sample_data false) false;
                DataEvent 0 sample_data; DataEvent 0 sample_data;
                CallDisconnect false; Fire (DisconnectCloseCb 0) false] in
  let again := [CallConnect "COM3" 115200;
                Fire (OpenCb 1 "COM3" 115200 sample_device) false] in
  let s1 := (run sample_vendorIdNames first sample_open).1 in
  let s2 := (run sample_vendorIdNames again s1).1 in
  (bytesSent s1, bytesReceived s1) = (3, 6) ∧ Idle s1 ∧
  (bytesSent s2, bytesReceived s2) = (0, 0) ∧ connected s2 = true.
Proof. repeat split; vm_compute; reflexivity. Qed.

(** ** C5: error and close events for one failure *)

Lemma run_handlers_quiet n f s :
  connected s = false →
  (∀ s, connected s = false → quiet s (f s).1 (f s).2) →
  quiet s (run_handlers n f s).1 (run_handlers n f s).2.
Proof.
  intros Hc Hf. revert s Hc. induction n as [|n IH]; intros s Hc; simpl.
  - by repeat split.
  - specialize (Hf s Hc). destruct (f s) as [s1 e1]. simpl in Hf.
    destruct Hf as (Ht & Hd & Hc1 & Hp & Hpo & Hq).
    specialize (IH s1 Hc1). destruct (run_handlers n f s1) as [s2 e2]. simpl in *.
    destruct IH as (Ht2 & Hd2 & Hc2 & Hp2 & Hpo2 & Hq2).
    unfold quiet. rewrite teardowns_app, disconnect_payloads_app, Ht, Ht2, Hd, Hd2.
    repeat split; congruence.
Qed.

(** On a session that is already disconnected the error handler only
    logs and the close handler does nothing. *)
Lemma on_error_quiet ct s :
  connected s = false → quiet s (on_error ct s).1 (on_error ct s).2.
Proof. intros Hc. unfold on_error. rewrite Hc. by repeat split. Qed.

Lemma on_close_quiet ct s :
  connected s = false → quiet s (on_close ct s).1 (on_close ct s).2.
Proof. intros Hc. unfold on_close. rewrite Hc. by repeat split. Qed.

Lemma transport_event_quiet vendorIdNames h a s :
  transport_event h a → connected s = false →
  quiet s (step vendorIdNames a s).1 (step vendorIdNames a s).2.
Proof.
  intros [[ct ->] | [ct ->]] Hc; simpl step.
  - apply run_handlers_quiet; [done|]. intros; by apply on_error_quiet.
  - assert (Hc' : connected (set_handle_open h false s) = false)
      by (by destruct_state s).
    pose proof (run_handlers_quiet (handle_listeners (set_handle_open h false s) h)
                  (on_close ct) (set_handle_open h false s) Hc'
                  (λ s H, on_close_quiet ct s H)) as (? & ? & ? & Hp & Hpo & Hq).
    repeat split; try done.
    + rewrite Hp. by destruct_state s.
    + rewrite Hpo. by destruct_state s.
    + rewrite Hq. by destruct_state s.
Qed.

Lemma transport_events_quiet vendorIdNames h evs s :
  Forall (transport_event h) evs → connected s = false →
  quiet s (run vendorIdNames evs s).1 (run vendorIdNames evs s).2.
Proof.
  intros Hall. revert s. induction Hall as [|a evs Ha Hall IH]; intros s Hc; simpl.
  - by repeat split.
  - pose proof (transport_event_quiet vendorIdNames h a s Ha Hc) as H.
    destruct (step vendorIdNames a s) as [s1 e1]. simpl in H.
    destruct H as (Ht & Hd & Hc1 & Hp & Hpo & Hq).
    specialize (IH s1 Hc1). destruct (run vendorIdNames evs s1) as [s2 e2]. simpl in *.
    destruct IH as (Ht2 & Hd2 & Hc2 & Hp2 & Hpo2 & Hq2).
    unfold quiet. rewrite teardowns_app, disconnect_payloads_app, Ht, Ht2, Hd, Hd2.
    repeat split; congruence.
Qed.

(** The first error or close event on the handle of an open session
    starts the one teardown: it either runs to its end at once (the handle
    is already closed, or the close call raises) or is suspended on the close
    callback. *)
Lemma first_transport_event vendorIdNames s h a :
  Open s h → transport_event h a →
  let '(s1, e1) := step vendorIdNames a s in
  teardowns e1 = 1%nat ∧ connected s1 = false ∧
  ((∃ b, disconnect_payloads e1 = [b] ∧ closeRequested s1 = false) ∨
   (disconnect_payloads e1 = [] ∧ DisconnectCloseCb h ∈ pending s1)).
Proof.
  intros [Hc Hq Hp Hr Hl (hd & Hhd & Hn)] Ha.
  destruct_state s; simpl in Hc, Hq, Hp, Hr, Hl, Hhd; subst.
  destruct Ha as [[ct ->] | [ct ->]]; simpl step.
  - unfold handle_listeners; simpl. rewrite Hhd, Hn, run_handlers_one.
    unfold on_error, disconnect, handle_open; simpl. rewrite Hhd.
    destruct (isOpen hd); [destruct ct|]; simpl.
    + destruct ocan; simpl; repeat split; left; by eexists.
    + repeat split. right. split; [done|apply elem_of_snoc].
    + destruct ocan; simpl; repeat split; left; by eexists.
  - match goal with |- context [handle_listeners ?s0 h] =>
      assert (handle_listeners s0 h = 1%nat) as ->
    end.
    { unfold handle_listeners, set_handle_open; simpl.
      rewrite list_lookup_alter_eq, Hhd. by destruct hd. }
    rewrite run_handlers_one.
    unfold on_close, disconnect, handle_open, set_handle_open; simpl.
    rewrite list_lookup_alter_eq, Hhd.
    destruct hd as [hp hb ho hl]; simpl.
    destruct ocan; simpl; repeat split; left; by eexists.
Qed.

Lemma fire_disconnect_close_post h err s :
  DisconnectCloseCb h ∈ pending s →
  let '(s', e) := fire (DisconnectCloseCb h) err s in
  disconnect_payloads e = [true] ∧ teardowns e = 0%nat ∧
  connected s' = connected s ∧ closeRequested s' = false ∧ port s' = None.
Proof.
  intros Hin. rewrite fire_in_flight by done.
  destruct_state s. unfold set_handle_open.
  destruct err; simpl; destruct ocan; simpl; by repeat split.
Qed.

(** C5: on an open session, let error and close events of its handle
    arrive in any number and order.  The first one starts a teardown; every
    later one finds the session disconnected and does nothing: it starts no
    teardown and emits no disconnect event.  So one teardown is performed in
    all, and one disconnect event is emitted: at once, or when the close
    callback of the teardown fires. *)
Theorem C5_one_teardown_per_failure vendorIdNames s h a rest :
  Open s h → transport_event h a → Forall (transport_event h) rest →
  let '(s1, e1) := step vendorIdNames a s in
  let '(s2, e2) := run vendorIdNames rest s1 in
  teardowns e1 = 1%nat ∧ connected s1 = false ∧
  teardowns e2 = 0%nat ∧ disconnect_payloads e2 = [] ∧ connected s2 = false ∧
  teardowns (e1 ++ e2) = 1%nat ∧
  ((∃ b, disconnect_payloads (e1 ++ e2) = [b] ∧ closeRequested s2 = false) ∨
   (disconnect_payloads (e1 ++ e2) = [] ∧ DisconnectCloseCb h ∈ pending s2 ∧
    ∀ err, let '(s3, e3) := fire (DisconnectCloseCb h) err s2 in
           disconnect_payloads (e1 ++ e2 ++ e3) = [true] ∧
           teardowns (e1 ++ e2 ++ e3) = 1%nat ∧
           connected s3 = false ∧ closeRequested s3 = false ∧ port s3 = None)).
Proof.
  intros Ho Ha Hrest.
  pose proof (first_transport_event vendorIdNames s h a Ho Ha) as H1.
  destruct (step vendorIdNames a s) as [s1 e1]. destruct H1 as (Ht1 & Hc1 & Hcase).
  pose proof (transport_events_quiet vendorIdNames h rest s1 Hrest Hc1) as H2.
  destruct (run vendorIdNames rest s1) as [s2 e2].
  destruct H2 as (Ht2 & Hd2 & Hc2 & Hp2 & Hpo2 & Hq2). cbn [fst snd] in *.
  rewrite teardowns_app, disconnect_payloads_app, Ht1, Ht2, Hd2, app_nil_r.
  repeat split; try done.
  destruct Hcase as [(b & Hb & Hq1) | (Hnil & Hin)].
  - left. exists b. split; [done|congruence].
  - right. rewrite Hp2. repeat split; try done.
    intros err.
    pose proof (fire_disconnect_close_post h err s2) as H3.
    rewrite Hp2 in H3. specialize (H3 Hin).
    destruct (fire (DisconnectCloseCb h) err s2) as [s3 e3].
    destruct H3 as (Hd3 & Ht3 & Hc3 & Hq3 & Hpo3).
    rewrite !teardowns_app, !disconnect_payloads_app, Ht1, Ht2, Ht3, Hnil, Hd2, Hd3.
    repeat split; try done. congruence.
Qed.

Lemma C5_one_teardown_per_failure_witness :
  (Open sample_open 0 ∧ transport_event 0 (ErrorEvent 0 false) ∧
   Forall (transport_event 0) [CloseEvent 0 false; ErrorEvent 0 false]) ∧
  let '(s1, e1) := step sample_vendorIdNames (ErrorEvent 0 false) sample_open in
  let '(s2, e2) :=
    run sample_vendorIdNames [CloseEvent 0 false; ErrorEvent 0 false] s1 in
  teardowns e1 = 1%nat ∧ connected s1 = false ∧
  teardowns e2 = 0%nat ∧ disconnect_payloads e2 = [] ∧ connected s2 = false ∧
  teardowns (e1 ++ e2) = 1%nat ∧
  ((∃ b, disconnect_payloads (e1 ++ e2) = [b] ∧ closeRequested s2 = false) ∨
   (disconnect_payloads (e1 ++ e2) = [] ∧ DisconnectCloseCb 0 ∈ pending s2 ∧
    ∀ err, let '(s3, e3) := fire (DisconnectCloseCb 0) err s2 in
           disconnect_payloads (e1 ++ e2 ++ e3) = [true] ∧
           teardowns (e1 ++ e2 ++ e3) = 1%nat ∧
           connected s3 = false ∧ closeRequested s3 = false ∧ port s3 = None)).
Proof.
  assert (H1 : transport_event 0 (ErrorEvent 0 false)) by (left; by eexists).
  assert (H2 : Forall (transport_event 0) [CloseEvent 0 false; ErrorEvent 0 false]).
  { apply Forall_cons; split; [right; by eexists|].
    apply Forall_cons; split; [left; by eexists|apply Forall_nil_2]. }
  split; [exact (conj sample_open_Open (conj H1 H2))|].
  exact (C5_one_teardown_per_failure sample_vendorIdNames sample_open 0%nat
           (ErrorEvent 0 false) [CloseEvent 0 false; ErrorEvent 0 false]
           sample_open_Open H1 H2).
Defined.

(** Both orders on the sample session: one teardown, one disconnect
    event. *)
Lemma error_then_close_on_sample :
  let tr := [ErrorEvent 0 false; CloseEvent 0 false; Fire (DisconnectCloseCb 0) false] in
  let r := run sample_vendorIdNames tr sample_open in
  teardowns r.2 = 1%nat ∧ disconnect_payloads r.2 = [true] ∧ Idle r.1.
Proof. repeat split; vm_compute; reflexivity. Qed.

Lemma close_then_error_on_sample :
  let tr := [CloseEvent 0 false; ErrorEvent 0 false] in
  let r := run sample_vendorIdNames tr sample_open in
  teardowns r.2 = 1%nat ∧ disconnect_payloads r.2 = [true] ∧ Idle r.1.
Proof. repeat split; vm_compute; reflexivity. Qed.

(** ** C8: one poll cycle *)

Section PollCycle.

Variable vendorIdNames : gmap Z string.

Local Notation "'create'" := (_createPort vendorIdNames).
Local Notation "'fresh' known" :=
  (λ portInfo : PortInfo.t, PortInfo.path portInfo ∉ known)
  (at level 10, known at level 9).

Lemma createPort_path portInfo : Device.path (create portInfo) = PortInfo.path portInfo.
Proof. reflexivity. Qed.

(** The first loop appends the descriptors of the listed ports whose path
    was not known before the cycle, one event each, in listing order. *)
Lemma poll_added_filter (known : list string) systemPorts ps :
  poll_added vendorIdNames known systemPorts ps =
  (ps ++ (create <$> filter (fresh known) systemPorts),
   (λ portInfo, Emit (EAddedDevice (create portInfo)))
     <$> filter (fresh known) systemPorts).
Proof.
  revert ps. induction systemPorts as [|portInfo rest IH]; intros ps; simpl.
  - by rewrite app_nil_r.
  - destruct (bool_decide_reflect (PortInfo.path portInfo ∈ known)) as [Hin|Hin].
    + rewrite filter_cons_False by (intros H; by apply H). apply IH.
    + rewrite filter_cons_True by done.
      rewrite IH; simpl. by rewrite <- app_assoc.
Qed.

(** The second loop removes nothing when every descriptor is still
    listed. *)
Lemma poll_removed_none (current : list string) snapshot ps :
  (∀ d, d ∈ snapshot → Device.path d ∈ current) →
  poll_removed current snapshot ps = (ps, []).
Proof.
  induction snapshot as [|d rest IH]; intros Hall; simpl; [done|].
  rewrite bool_decide_eq_true_2 by (apply Hall; left).
  apply IH. intros d' Hd'. apply Hall. by right.
Qed.

Lemma filter_none {A} (P : A → Prop) `{∀ x, Decision (P x)} (l : list A) :
  (∀ x, x ∈ l → ¬ P x) → filter P l = [].
Proof.
  induction l as [|x l IH]; intros Hall; [done|].
  rewrite filter_cons_False by (apply Hall; left). apply IH.
  intros y Hy. apply Hall. by right.
Qed.

(** In a listing without repeated paths, the ports that have the path of
    a listed port are that port alone. *)
Lemma filter_the_one (P : PortInfo.t → Prop) `{∀ x, Decision (P x)}
    (l : list PortInfo.t) (x : PortInfo.t) :
  NoDup (PortInfo.path <$> l) → x ∈ l →
  (∀ y, y ∈ l → P y ↔ PortInfo.path y = PortInfo.path x) →
  filter P l = [x].
Proof.
  induction l as [|y l IH]; intros Hnd Hin HP; [by apply elem_of_nil in Hin|].
  rewrite fmap_cons in Hnd. apply NoDup_cons in Hnd as [Hy Hnd].
  apply elem_of_cons in Hin as [->|Hin].
  - rewrite filter_cons_True by (apply HP; [left|done]).
    f_equal. apply filter_none. intros z Hz Pz.
    apply HP in Pz; [|by right]. apply Hy. rewrite <- Pz.
    apply list_elem_of_fmap. eauto.
  - rewrite filter_cons_False.
    + apply IH; [done..|]. intros z Hz. apply HP. by right.
    + intros Py. apply HP in Py; [|left]. apply Hy. rewrite Py.
      apply list_elem_of_fmap. eauto.
Qed.

Lemma pollDevices_listed s systemPorts :
  _SerialPort s = true →
  _pollDevices vendorIdNames (Some systemPorts) s =
  let known := Device.path <$> ports s in
  let ps1 := ports s ++ (create <$> filter (fresh known) systemPorts) in
  let r := poll_removed (PortInfo.path <$> systemPorts) ps1 ps1 in
  (s <| ports := r.1 |>,
   ((λ portInfo, Emit (EAddedDevice (create portInfo)))
      <$> filter (fresh known) systemPorts) ++ r.2).
Proof.
  intros Hsp. unfold _pollDevices. rewrite Hsp; simpl.
  rewrite poll_added_filter. by destruct (poll_removed _ _ _).
Qed.

(** C8 (amended): take an object whose serial module is loaded, whose
    known list holds at most one descriptor per path, and a listing in which
    no path occurs twice.  If the listed paths are the known paths, the poll
    cycle emits nothing and leaves the known list as it is.  If they are the
    known paths and one new path, the cycle emits one addedDevice event,
    carrying the descriptor created for the port of that path, and no other
    event, and the known list still holds at most one descriptor per
    path. *)
Theorem C8_poll_cycle s systemPorts :
  _SerialPort s = true →
  NoDup (Device.path <$> ports s) →
  NoDup (PortInfo.path <$> systemPorts) →
  spec_poll_post vendorIdNames s systemPorts.
Proof.
  intros Hsp Hknown Hlisted. unfold spec_poll_post.
  rewrite pollDevices_listed by done. cbv zeta.
  set (known := Device.path <$> ports s).
  set (current := PortInfo.path <$> systemPorts).
  split.
  - intros Hsame.
    rewrite (filter_none (fresh known) systemPorts).
    2:{ intros x Hx Hf. apply Hf, Hsame. apply list_elem_of_fmap. eauto. }
    rewrite fmap_nil, app_nil_r.
    rewrite poll_removed_none.
    2:{ intros d Hd. apply Hsame. apply list_elem_of_fmap. eauto. }
    split; [done|]. by destruct_state s.
  - intros portInfo Hin Hnew Hone.
    rewrite (filter_the_one (fresh known) systemPorts portInfo Hlisted Hin).
    2:{ intros y Hy. split.
        - intros Hf.
          destruct (proj1 (Hone (PortInfo.path y))) as [Hk|Hk]; [|done|done].
          apply list_elem_of_fmap. eauto.
        - intros Heq. unfold not. rewrite Heq. exact Hnew. }
    rewrite poll_removed_none.
    2:{ intros d Hd. apply Hone.
        apply elem_of_app in Hd as [Hd|Hd].
        - left. apply list_elem_of_fmap. eauto.
        - right. apply list_elem_of_singleton in Hd. by subst d. }
    split; [done|].
    replace (ports (s <| ports := _ |>)) with (ports s ++ [create portInfo])
      by (by destruct_state s).
    rewrite fmap_app. apply NoDup_app. split; [done|]. split.
    + intros p Hp Hp'. apply list_elem_of_singleton in Hp'. by subst p.
    + apply NoDup_singleton.
Qed.

(** The second loop only ever filters the live list. *)
Lemma poll_removed_sublist (current : list string) snapshot ps :
  (poll_removed current snapshot ps).1 `sublist_of` ps.
Proof.
  revert ps. induction snapshot as [|d rest IH]; intros ps; simpl; [done|].
  destruct (bool_decide _); [apply IH|].
  specialize (IH (filter (λ p, Device.path p ≠ Device.path d) ps)).
  destruct (poll_removed current rest _) as [ps' effs]. simpl in *.
  etrans; [exact IH|apply sublist_filter].
Qed.

(** The invariant behind the last part of C8: whatever the listing adds or
    removes, a poll cycle keeps at most one descriptor per path, as long as
    the listing itself names no path twice. *)
Lemma poll_keeps_paths_unique s listed :
  NoDup (Device.path <$> ports s) →
  (∀ systemPorts, listed = Some systemPorts → NoDup (PortInfo.path <$> systemPorts)) →
  NoDup (Device.path <$> ports (_pollDevices vendorIdNames listed s).1).
Proof.
  intros Hknown Hlisted.
  destruct (_SerialPort s) eqn:Hsp; [|by unfold _pollDevices; rewrite Hsp].
  destruct listed as [systemPorts|]; [|by unfold _pollDevices; rewrite Hsp].
  specialize (Hlisted systemPorts eq_refl).
  rewrite pollDevices_listed by done. cbv zeta.
  set (known := Device.path <$> ports s) in *.
  set (ps1 := ports s ++ _) in *.
  replace (ports (s <| ports := _ |>, _).1)
    with (poll_removed (PortInfo.path <$> systemPorts) ps1 ps1).1
    by (by destruct_state s).
  eapply sublist_NoDup;
    [|apply (fmap_sublist Device.path), poll_removed_sublist].
  unfold ps1. rewrite fmap_app. apply NoDup_app. split; [done|]. split.
  - intros p Hp Hp'.
    apply list_elem_of_fmap in Hp' as (d & -> & Hd).
    apply list_elem_of_fmap in Hd as (portInfo & -> & Hpi).
    apply list_elem_of_filter in Hpi as [Hfresh _]. by apply Hfresh.
  - rewrite <- list_fmap_compose.
    eapply sublist_NoDup; [exact Hlisted|].
    apply (fmap_sublist (Device.path ∘ create)), sublist_filter.
Qed.

End PollCycle.

Lemma C8_poll_cycle_witness :
  (_SerialPort sample_idle = true ∧
   NoDup (Device.path <$> ports sample_idle) ∧
   NoDup (PortInfo.path <$> [sample_COM3; sample_COM4;
                             PortInfo.mk "COM7" None None None])) ∧
  spec_poll_post sample_vendorIdNames sample_idle
    [sample_COM3; sample_COM4; PortInfo.mk "COM7" None None None].
Proof.
  assert (H1 : NoDup (Device.path <$> ports sample_idle)).
  { refine (bool_decide_unpack _ _). vm_compute. exact I. }
  assert (H2 : NoDup (PortInfo.path <$> [sample_COM3; sample_COM4;
                                         PortInfo.mk "COM7" None None None])).
  { refine (bool_decide_unpack _ _). vm_compute. exact I. }
  split; [split; [vm_compute; reflexivity | by split]|].
  exact (C8_poll_cycle sample_vendorIdNames sample_idle
           [sample_COM3; sample_COM4; PortInfo.mk "COM7" None None None]
           eq_refl H1 H2).
Defined.

(** C8, as the specification words it, fails: starting from an empty known
    list, a listing that reports the one new path COM3 twice makes the cycle
    emit two addedDevice events and leaves two descriptors for COM3. *)
Lemma C8_repeated_path_is_added_twice :
  ¬ spec_poll_post sample_vendorIdNames (new_NWSerial true) [sample_COM3; sample_COM3].
Proof.
  unfold spec_poll_post.
  rewrite pollDevices_listed by reflexivity. cbv zeta.
  intros [_ H].
  destruct (H sample_COM3) as [He _].
  - apply list_elem_of_here.
  - apply not_elem_of_nil.
  - intros p. split.
    + intros Hp. right.
      apply elem_of_cons in Hp as [->|Hp]; [done|].
      by apply list_elem_of_singleton in Hp.
    + intros [Hp| ->]; [by apply elem_of_nil in Hp|apply list_elem_of_here].
  - vm_compute in He. discriminate He.
Qed.

Lemma repeated_path_on_sample :
  let r := _pollDevices sample_vendorIdNames (Some [sample_COM3; sample_COM3])
             (new_NWSerial true) in
  emitted r.2 = [EAddedDevice sample_device; EAddedDevice sample_device] ∧
  Device.path <$> ports r.1 = ["COM3"; "COM3"]%string.
Proof. split; vm_compute; reflexivity. Qed.

(** ** C3: the port selector *)

Section SelectorProps.

Import PortHandler.
Variable deviceFilter : list string.

Lemma first_match_Some filters devices d :
  first_match filters devices = Some d →
  d ∈ devices ∧ ∃ f, f ∈ filters ∧ includes (displayName d) f = true.
Proof.
  induction filters as [|f filters IH]; simpl; [done|].
  destruct (find _ devices) as [d'|] eqn:Hfind.
  - intros [= ->]. apply find_some in Hfind as [Hin Hinc].
    split; [by apply list_elem_of_In|]. exists f. split; [left|done].
  - intros H. destruct (IH H) as (Hin & f' & Hf' & Hinc).
    split; [done|]. exists f'. split; [by right|done].
Qed.

Lemma first_match_None filters devices d f :
  first_match filters devices = None →
  d ∈ devices → f ∈ filters → includes (displayName d) f = false.
Proof.
  induction filters as [|f' filters IH]; simpl; intros Hnone Hd Hf.
  - by apply elem_of_nil in Hf.
  - destruct (find _ devices) as [d'|] eqn:Hfind; [done|].
    apply elem_of_cons in Hf as [->|Hf]; [|by apply IH].
    apply list_elem_of_In in Hd.
    exact (find_none _ _ Hfind d Hd).
Qed.

Lemma matches_false d :
  (∀ f, f ∈ deviceFilter → includes (displayName d) f = false) →
  matches deviceFilter d = false.
Proof.
  unfold matches. intros Hall.
  destruct (existsb _ deviceFilter) eqn:He; [|done].
  apply existsb_exists in He as (f & Hf & Hinc).
  apply list_elem_of_In in Hf. by rewrite Hall in Hinc.
Qed.

Lemma matches_true d f :
  f ∈ deviceFilter → includes (displayName d) f = true →
  matches deviceFilter d = true.
Proof.
  intros Hf Hinc. unfold matches. apply existsb_exists.
  exists f. split; [by apply list_elem_of_In|done].
Qed.

(** C3: the selector obeys hint > filter match > "virtual" > "manual" >
    none for every input.  A suggested device decides the result whatever
    the lists hold; without one, a listed device that matches a filter is
    returned whenever there is such a device; with no hint and no matching
    device the result is "virtual" if virtual mode is shown, otherwise
    "manual" if manual mode is shown, otherwise it is undefined and the
    selection shown is "noselection". *)
Theorem C3_selection_priority suggestedDevice st :
  let '(result, st') := selectActivePort deviceFilter suggestedDevice st in
  match suggestedDevice with
  | Some hint => result = Some (path hint)
  | None =>
      match first_match deviceFilter (scanned st) with
      | Some d =>
          result = Some (path d) ∧ d ∈ scanned st ∧ matches deviceFilter d = true
      | None =>
          (∀ d, d ∈ scanned st → matches deviceFilter d = false) ∧
          if showVirtualMode st then result = Some "virtual"%string
          else if showManualMode st then result = Some "manual"%string
          else result = None ∧ selectedPort st' = "noselection"%string
      end
  end.
Proof.
  unfold selectActivePort.
  destruct suggestedDevice as [hint|]; [done|].
  destruct (first_match deviceFilter (scanned st)) as [d|] eqn:Hm.
  - apply first_match_Some in Hm as (Hin & f & Hf & Hinc).
    repeat split; [done|]. by apply (matches_true d f).
  - assert (Hnone : ∀ d, d ∈ scanned st → matches deviceFilter d = false).
    { intros d Hd. apply matches_false. intros f Hf.
      by apply (first_match_None deviceFilter (scanned st)). }
    destruct (showVirtualMode st); [done|].
    destruct (showManualMode st); done.
Qed.

End SelectorProps.

(** The scenarios of the specification and of the tests. *)
Lemma selector_scenarios :
  let stm := PortHandler.mkPort "COM3" "Betaflight STM Electronics" in
  let unknown := PortHandler.mkPort "COM1" "Unknown Device" in
  let st l v m := PortHandler.mk l [] [] v m "" in
  let select := PortHandler.selectActivePort sample_deviceFilter in
  (select None (st [stm] false false)).1 = Some "COM3"%string ∧
  (select (Some (PortHandler.mkPort "COM10" "")) (st [stm] false false)).1
    = Some "COM10"%string ∧
  (select None (st [] true false)).1 = Some "virtual"%string ∧
  (select None (st [] false true)).1 = Some "manual"%string ∧
  (select None (st [] true true)).1 = Some "virtual"%string ∧
  (select None (st [unknown] false false)).1 = None ∧
  PortHandler.selectedPort (select None (st [unknown] false false)).2
    = "noselection"%string.
Proof. repeat split; vm_compute; reflexivity. Qed.

(** * Further properties *)

(** ** The device registry *)

Section RegistryProps.

Variable vendorIdNames : gmap Z string.

Local Notation "'create'" := (_createPort vendorIdNames).
Local Notation "'listed_in' current" :=
  (λ d : Device.t, Device.path d ∈ current) (at level 10, current at level 9).
Local Notation "'unlisted_in' current" :=
  (λ d : Device.t, Device.path d ∉ current) (at level 10, current at level 9).
Local Notation "'unknown_in' known" :=
  (λ portInfo : PortInfo.t, PortInfo.path portInfo ∉ known)
  (at level 10, known at level 9).

Lemma filter_all {A} (P : A → Prop) `{∀ x, Decision (P x)} (l : list A) :
  (∀ x, x ∈ l → P x) → filter P l = l.
Proof.
  induction l as [|x l IH]; intros Hall; [done|].
  rewrite filter_cons_True by (apply Hall; left). f_equal. apply IH.
  intros y Hy. apply Hall. by right.
Qed.

Lemma filter_ext_in {A} (P Q : A → Prop) `{∀ x, Decision (P x)} `{∀ x, Decision (Q x)}
    (l : list A) :
  (∀ x, x ∈ l → P x ↔ Q x) → filter P l = filter Q l.
Proof.
  induction l as [|x l IH]; intros Hall; [done|].
  assert (Hl : filter P l = filter Q l).
  { apply IH. intros y Hy. apply Hall. by right. }
  destruct (decide (P x)) as [HP|HP].
  - rewrite !filter_cons_True; [by rewrite Hl|by apply Hall; [left|]|done].
  - rewrite !filter_cons_False; [done| |done].
    intros HQ. apply HP, Hall; [left|done].
Qed.

(** The second loop drops from the live list every descriptor that shares
    its path with a descriptor of the snapshot that is no longer listed, and
    emits one event for each such descriptor of the snapshot. *)
Lemma poll_removed_filter (current : list string) snapshot ps :
  poll_removed current snapshot ps =
  (filter (λ p, Device.path p ∉ Device.path <$> filter (unlisted_in current) snapshot) ps,
   (λ d, Emit (ERemovedDevice d)) <$> filter (unlisted_in current) snapshot).
Proof.
  revert ps. induction snapshot as [|d rest IH]; intros ps; simpl.
  - f_equal. symmetry. apply filter_all. intros x _. apply not_elem_of_nil.
  - destruct (bool_decide_reflect (Device.path d ∈ current)) as [Hin|Hin].
    + rewrite filter_cons_False by (intros H; by apply H). apply IH.
    + rewrite filter_cons_True by done. rewrite IH. simpl. f_equal.
      rewrite list_filter_filter. apply list_filter_iff.
      intros x. rewrite not_elem_of_cons. tauto.
Qed.

Lemma pollDevices_diff s systemPorts :
  _SerialPort s = true →
  let current := PortInfo.path <$> systemPorts in
  let known := Device.path <$> ports s in
  let new := filter (unknown_in known) systemPorts in
  let gone := filter (unlisted_in current) (ports s) in
  _pollDevices vendorIdNames (Some systemPorts) s =
  (s <| ports := filter (listed_in current) (ports s) ++ (create <$> new) |>,
   ((λ portInfo, Emit (EAddedDevice (create portInfo))) <$> new) ++
   ((λ d, Emit (ERemovedDevice d)) <$> gone)).
Proof.
  intros Hsp. cbv zeta.
  rewrite pollDevices_listed by done. cbv zeta.
  rewrite poll_removed_filter. simpl.
  set (current := PortInfo.path <$> systemPorts).
  set (known := Device.path <$> ports s).
  set (new := filter (unknown_in known) systemPorts).
  assert (Hnew : ∀ d, d ∈ create <$> new → Device.path d ∈ current).
  { intros d (portInfo & -> & Hpi)%list_elem_of_fmap.
    apply list_elem_of_filter in Hpi as [_ Hpi].
    apply list_elem_of_fmap. eauto. }
  assert (Hgone : filter (unlisted_in current) (ports s ++ (create <$> new))
                  = filter (unlisted_in current) (ports s)).
  { rewrite filter_app.
    rewrite (filter_none (unlisted_in current) (create <$> new)).
    - apply app_nil_r.
    - intros d Hd Hun. by apply Hun, Hnew. }
  rewrite Hgone. f_equal. f_equal.
  rewrite (filter_ext_in _ (listed_in current)).
  - rewrite filter_app. f_equal. apply filter_all. exact Hnew.
  - intros d Hd. split.
    + intros Hkeep. destruct (decide (Device.path d ∈ current)) as [|Hun]; [done|].
      exfalso. apply Hkeep. apply list_elem_of_fmap. exists d. split; [done|].
      apply list_elem_of_filter. split; [done|].
      apply elem_of_app in Hd as [Hd|Hd]; [done|]. by apply Hnew in Hd.
    + intros Hin (d' & Heq & Hd')%list_elem_of_fmap.
      apply list_elem_of_filter in Hd' as [Hun _]. apply Hun. by rewrite <- Heq.
Qed.

(** X3: what a poll cycle computes.  With the module loaded and a listing
    obtained, the known list becomes the known descriptors whose path is
    still listed, in their order and as they were, followed by new
    descriptors for the listed ports whose path was not known, in listing
    order; the events are one addedDevice for each of the latter, then one
    removedDevice for each known descriptor whose path is not listed any
    more. *)
Theorem poll_cycle_is_the_diff s systemPorts :
  _SerialPort s = true →
  let current := PortInfo.path <$> systemPorts in
  let known := Device.path <$> ports s in
  let new := filter (unknown_in known) systemPorts in
  let gone := filter (unlisted_in current) (ports s) in
  _pollDevices vendorIdNames (Some systemPorts) s =
  (s <| ports := filter (listed_in current) (ports s) ++ (create <$> new) |>,
   ((λ portInfo, Emit (EAddedDevice (create portInfo))) <$> new) ++
   ((λ d, Emit (ERemovedDevice d)) <$> gone)).
Proof. apply pollDevices_diff. Qed.

Lemma pollDevices_paths s systemPorts p :
  _SerialPort s = true →
  p ∈ Device.path <$> ports (_pollDevices vendorIdNames (Some systemPorts) s).1
  ↔ p ∈ PortInfo.path <$> systemPorts.
Proof.
  intros Hsp. rewrite pollDevices_diff by done. cbv zeta.
  replace (ports (s <| ports := _ |>, _).1)
    with (filter (listed_in (PortInfo.path <$> systemPorts)) (ports s) ++
          (create <$> filter (unknown_in (Device.path <$> ports s)) systemPorts))
    by (by destruct_state s).
  rewrite fmap_app, elem_of_app. split.
  - intros [(d & -> & Hd)%list_elem_of_fmap | (d & -> & Hd)%list_elem_of_fmap].
    + by apply list_elem_of_filter in Hd as [Hd _].
    + apply list_elem_of_fmap in Hd as (portInfo & -> & Hpi).
      apply list_elem_of_filter in Hpi as [_ Hpi].
      apply list_elem_of_fmap. eauto.
  - intros Hp.
    destruct (decide (p ∈ Device.path <$> ports s)) as [Hk|Hk].
    + left. apply list_elem_of_fmap in Hk as (d & -> & Hd).
      apply list_elem_of_fmap. exists d. split; [done|].
      by apply list_elem_of_filter.
    + right. apply list_elem_of_fmap in Hp as (portInfo & -> & Hpi).
      apply list_elem_of_fmap. exists (create portInfo). split; [done|].
      apply list_elem_of_fmap. exists portInfo. split; [done|].
      by apply list_elem_of_filter.
Qed.

(** X2: after a poll cycle that obtained a listing, the known paths are
    the listed paths: every listed path has a descriptor and no descriptor is
    left for a path that is not listed. *)
Theorem poll_tracks_the_listing s systemPorts p :
  _SerialPort s = true →
  p ∈ Device.path <$> ports (_pollDevices vendorIdNames (Some systemPorts) s).1
  ↔ p ∈ PortInfo.path <$> systemPorts.
Proof. apply pollDevices_paths. Qed.

(** A cycle whose listing names the known paths, no more and no fewer,
    changes nothing and emits nothing. *)
Lemma poll_same_paths s systemPorts :
  (∀ p, p ∈ PortInfo.path <$> systemPorts ↔ p ∈ Device.path <$> ports s) →
  _pollDevices vendorIdNames (Some systemPorts) s = (s, []).
Proof.
  intros Hsame.
  destruct (_SerialPort s) eqn:Hsp; [|by unfold _pollDevices; rewrite Hsp].
  rewrite pollDevices_diff by done. cbv zeta.
  rewrite (filter_none (unknown_in _) systemPorts).
  2:{ intros x Hx Hf. apply Hf, Hsame. apply list_elem_of_fmap. eauto. }
  rewrite (filter_none (unlisted_in _) (ports s)).
  2:{ intros d Hd Hf. apply Hf, Hsame. apply list_elem_of_fmap. eauto. }
  rewrite (filter_all (listed_in _) (ports s)).
  2:{ intros d Hd. apply Hsame. apply list_elem_of_fmap. eauto. }
  simpl. rewrite app_nil_r. by destruct_state s.
Qed.

(** X4: polling is idempotent on a listing: a second cycle that obtains
    the same listing as the one before it emits no event and changes
    nothing. *)
Theorem poll_twice_is_quiet s systemPorts :
  let s1 := (_pollDevices vendorIdNames (Some systemPorts) s).1 in
  _pollDevices vendorIdNames (Some systemPorts) s1 = (s1, []).
Proof.
  cbv zeta.
  destruct (_SerialPort s) eqn:Hsp.
  - apply poll_same_paths. intros p. symmetry. by apply pollDevices_paths.
  - unfold _pollDevices at 2. rewrite Hsp. simpl.
    unfold _pollDevices. by rewrite Hsp.
Qed.

Lemma loadDevices_paths s systemPorts :
  _SerialPort s = true →
  Device.path <$> ports (loadDevices vendorIdNames (Some systemPorts) s).1
  = PortInfo.path <$> systemPorts.
Proof.
  intros Hsp. unfold loadDevices. rewrite Hsp.
  destruct_state s. simpl. rewrite <- list_fmap_compose. by apply list_fmap_ext.
Qed.

(** X1: [loadDevices].  When the listing is obtained, the known list is
    replaced by one descriptor per listed port, in listing order, each with
    the path of its port and carrying the port information it was built from;
    nothing else of the object changes and nothing is emitted.  When the
    listing fails the object is left as it was. *)
Theorem loadDevices_replaces_the_list s systemPorts :
  _SerialPort s = true →
  let '(s', effs) := loadDevices vendorIdNames (Some systemPorts) s in
  s' = s <| ports := create <$> systemPorts |> ∧ effs = [] ∧
  Device.path <$> ports s' = PortInfo.path <$> systemPorts ∧
  Device.port <$> ports s' = systemPorts ∧
  (loadDevices vendorIdNames None s).1 = s.
Proof.
  intros Hsp. unfold loadDevices. rewrite Hsp.
  destruct_state s. simpl.
  rewrite <- !list_fmap_compose.
  repeat split.
  rewrite <- (list_fmap_id systemPorts) at 2. by apply list_fmap_ext.
Qed.

(** X5: a poll cycle right after [loadDevices], on the same listing, finds
    nothing to report. *)
Theorem poll_after_load_is_quiet s systemPorts :
  let s1 := (loadDevices vendorIdNames (Some systemPorts) s).1 in
  _pollDevices vendorIdNames (Some systemPorts) s1 = (s1, []).
Proof.
  cbv zeta.
  destruct (_SerialPort s) eqn:Hsp.
  - apply poll_same_paths. intros p. by rewrite loadDevices_paths.
  - unfold loadDevices. rewrite Hsp. simpl. unfold _pollDevices. by rewrite Hsp.
Qed.

Lemma Open_set_ports s h l : Open s h → Open (s <| ports := l |>) h.
Proof. intros []. by destruct_state s. Qed.

Lemma registry_events_only {A} (g : A → Device.t) (l1 : list A) (l2 : list Device.t) :
  let effs := ((λ x, Emit (EAddedDevice (g x))) <$> l1) ++
              ((λ d, Emit (ERemovedDevice d)) <$> l2) in
  disconnect_payloads effs = [] ∧ connect_payloads effs = [].
Proof.
  cbv zeta. induction l1 as [|x l1 IH]; [|exact IH].
  induction l2 as [|d l2 IH]; [done|exact IH].
Qed.

(** X7: the registry never touches the session.  Whatever a poll cycle or
    [loadDevices] is given, only [ports] can change: an open session stays
    open on its handle, even when the descriptor of the connected device is
    removed, and no connect or disconnect event is emitted. *)
Theorem registry_leaves_session_alone a s h :
  (∃ listed, a = PollTick listed ∨ a = LoadDevices listed) →
  let '(s', effs) := step vendorIdNames a s in
  s' = s <| ports := ports s' |> ∧
  (Open s h → Open s' h) ∧
  disconnect_payloads effs = [] ∧ connect_payloads effs = [].
Proof.
  assert (Hid : s = s <| ports := ports s |>) by (by destruct_state s).
  assert (Hsame : (s = s <| ports := ports s |>) ∧ (Open s h → Open s h) ∧
                  disconnect_payloads [] = [] ∧ connect_payloads [] = []) by done.
  assert (Hlog : ∀ m, (s = s <| ports := ports s |>) ∧ (Open s h → Open s h) ∧
                  disconnect_payloads [Log m] = [] ∧ connect_payloads [Log m] = [])
    by done.
  intros (listed & [-> | ->]); simpl step.
  - destruct (_SerialPort s) eqn:Hsp; [|by unfold _pollDevices; rewrite Hsp].
    destruct listed as [systemPorts|]; [|by unfold _pollDevices; rewrite Hsp].
    rewrite pollDevices_diff by done. cbv zeta.
    split; [by destruct_state s|]. split; [apply Open_set_ports|].
    apply registry_events_only.
  - unfold loadDevices.
    destruct (_SerialPort s); [|done]. destruct listed; [|done]. simpl.
    split; [by destruct_state s|]. split; [apply Open_set_ports|done].
Qed.

End RegistryProps.

Lemma poll_tracks_the_listing_witness :
  _SerialPort sample_idle = true ∧
  ("COM7"%string ∈ Device.path <$>
     ports (_pollDevices sample_vendorIdNames
              (Some [sample_COM4; PortInfo.mk "COM7" None None None]) sample_idle).1
   ↔ "COM7"%string ∈ PortInfo.path <$> [sample_COM4; PortInfo.mk "COM7" None None None]).
Proof.
  split; [vm_compute; reflexivity|].
  apply (poll_tracks_the_listing sample_vendorIdNames sample_idle
           [sample_COM4; PortInfo.mk "COM7" None None None] "COM7"%string).
  vm_compute; reflexivity.
Defined.

Lemma loadDevices_replaces_the_list_witness :
  _SerialPort (new_NWSerial true) = true ∧
  let '(s', effs) :=
    loadDevices sample_vendorIdNames (Some [sample_COM3; sample_COM4]) (new_NWSerial true) in
  s' = (new_NWSerial true)
         <| ports := _createPort sample_vendorIdNames <$> [sample_COM3; sample_COM4] |> ∧
  effs = [] ∧
  Device.path <$> ports s' = PortInfo.path <$> [sample_COM3; sample_COM4] ∧
  Device.port <$> ports s' = [sample_COM3; sample_COM4] ∧
  (loadDevices sample_vendorIdNames None (new_NWSerial true)).1 = new_NWSerial true.
Proof.
  split; [reflexivity|].
  exact (loadDevices_replaces_the_list sample_vendorIdNames (new_NWSerial true)
           [sample_COM3; sample_COM4] eq_refl).
Defined.

Lemma registry_leaves_session_alone_witness :
  (∃ listed, PollTick (Some []) = PollTick listed ∨ PollTick (Some []) = LoadDevices listed) ∧
  let '(s', effs) := step sample_vendorIdNames (PollTick (Some [])) sample_open in
  s' = sample_open <| ports := ports s' |> ∧
  (Open sample_open 0 → Open s' 0) ∧
  disconnect_payloads effs = [] ∧ connect_payloads effs = [].
Proof.
  assert (H : ∃ listed, PollTick (Some []) = PollTick listed ∨
                        PollTick (Some []) = LoadDevices listed)
    by (exists (Some []); by left).
  split; [exact H|].
  exact (registry_leaves_session_alone sample_vendorIdNames
           (PollTick (Some [])) sample_open 0%nat H).
Defined.


Lemma poll_cycle_is_the_diff_witness :
  _SerialPort sample_idle = true ∧
  _pollDevices sample_vendorIdNames
    (Some [sample_COM4; PortInfo.mk "COM7" None None None]) sample_idle =
  (sample_idle
     <| ports := filter (λ d, Device.path d ∈
                           PortInfo.path <$> [sample_COM4; PortInfo.mk "COM7" None None None])
                   (ports sample_idle) ++
                 (_createPort sample_vendorIdNames <$>
                    filter (λ portInfo, PortInfo.path portInfo ∉
                                      Device.path <$> ports sample_idle)
                      [sample_COM4; PortInfo.mk "COM7" None None None]) |>,
   ((λ portInfo, Emit (EAddedDevice (_createPort sample_vendorIdNames portInfo))) <$>
      filter (λ portInfo, PortInfo.path portInfo ∉ Device.path <$> ports sample_idle)
        [sample_COM4; PortInfo.mk "COM7" None None None]) ++
   ((λ d, Emit (ERemovedDevice d)) <$>
      filter (λ d, Device.path d ∉
                PortInfo.path <$> [sample_COM4; PortInfo.mk "COM7" None None None])
        (ports sample_idle))).
Proof.
  split; [reflexivity|].
  exact (poll_cycle_is_the_diff sample_vendorIdNames sample_idle
           [sample_COM4; PortInfo.mk "COM7" None None None] eq_refl).
Defined.

(** ** The session *)

Section SessionProps.

Variable vendorIdNames : gmap Z string.

(** X8: a connect that succeeds.  On an idle session with the module
    loaded and no cancellation pending, [connect] for a listed path followed
    by a successful open gives an open session on a new, open handle:
    [connectionId] is the path, [bitrate] the requested rate, the connection
    info holds the ids of the listed device, both counters are 0, the one
    event is [connect] with that info, the call resolves [true], and
    [getConnectedPort] returns the listed device. *)
Theorem connect_opens_session s path baudRate device :
  Idle s → _SerialPort s = true → openCanceled s = false →
  find (λ d, bool_decide (Device.path d = path)) (ports s) = Some device →
  let h := length (handles s) in
  let info := mkConnectionInfo (Device.vendorId device) (Device.productId device) in
  let '(s', effs) :=
    run vendorIdNames
      [CallConnect path baudRate; Fire (OpenCb h path baudRate device) false] s in
  Open s' h ∧ handle_open s' h = true ∧
  connectionId s' = IdPath path ∧ bitrate s' = baudRate ∧
  connectionInfo s' = Some info ∧
  bytesSent s' = 0 ∧ bytesReceived s' = 0 ∧
  emitted effs = [EConnect (Some info)] ∧
  Settle (ConnectResult true) ∈ effs ∧
  getConnectedPort s' = Some device.
Proof.
  intros [Hc Ho Hq Hp] Hsp Hx Hfind. cbv zeta.
  destruct_state s; simpl in Hc, Ho, Hq, Hp, Hsp, Hx, Hfind; subst.
  cbn [run step]. unfold connect; simpl. rewrite Hfind; simpl.
  rewrite fire_in_flight by apply elem_of_snoc.
  unfold set_handle_open, handle_open, getConnectedPort; simpl.
  match goal with |- context [?l !! length hs] =>
    assert (Hhd : l !! length hs = Some (mkHandle path baudRate true 1))
  end.
  { do 2 rewrite list_lookup_alter_eq.
    by rewrite (list_lookup_middle hs [] _ (length hs) eq_refl). }
  rewrite Hhd. simpl.
  split; [split; simpl; eauto|].
  repeat split; try done.
  rewrite !elem_of_cons. tauto.
Qed.

(** X9: an open that fails.  When the open callback of a pending connect
    reports an error the session is idle again: not connected, nothing
    requested, no port reference; [connect(false)] is dispatched and the call
    resolves [false].  No handle changes, and a cancellation requested
    meanwhile stays requested. *)
Theorem open_error_returns_to_idle s h path baudRate device :
  Opening s h (OpenCb h path baudRate device) →
  let '(s', effs) := fire (OpenCb h path baudRate device) true s in
  Idle s' ∧
  effs = [Log LogErrorOpening; Emit (EConnect None); Settle (ConnectResult false)] ∧
  handles s' = handles s ∧ openCanceled s' = openCanceled s.
Proof.
  intros [Hc Ho Hq Hp Hin]. rewrite fire_in_flight by done.
  destruct_state s; simpl in Hc, Ho, Hq, Hp; subst. by repeat split.
Qed.

(** X10: a cancellation outlives a failed open.  If a cancellation is
    requested for a connect whose open then fails, the flag is still set when
    the next connect is made: the open of that next connect, although it
    succeeds, is treated as canceled: the new handle is closed at once and
    the call resolves [false]. *)
Theorem cancel_outlives_failed_open s h path baudRate device path' baudRate' device' :
  Opening s h (OpenCb h path baudRate device) → openCanceled s = true →
  _SerialPort s = true →
  find (λ d, bool_decide (Device.path d = path')) (ports s) = Some device' →
  let h' := length (handles s) in
  let '(s', effs) :=
    run vendorIdNames
      [Fire (OpenCb h path baudRate device) true;
       CallConnect path' baudRate';
       Fire (OpenCb h' path' baudRate' device') false] s in
  effs = [Log LogErrorOpening; Emit (EConnect None); Settle (ConnectResult false);
          PortOpenCall h'; PortCloseCall h'; Settle (ConnectResult false)] ∧
  connected s' = false ∧ openCanceled s' = false ∧
  CancelCloseCb h' ∈ pending s'.
Proof.
  intros [Hc Ho Hq Hp Hin] Hx Hsp Hfind. cbv zeta.
  cbn [run step]. rewrite fire_in_flight by done.
  destruct_state s; simpl in Hc, Ho, Hq, Hp, Hx, Hsp, Hfind; subst.
  simpl. unfold connect; simpl. rewrite Hfind; simpl.
  rewrite fire_in_flight by apply elem_of_snoc.
  simpl. repeat split. apply elem_of_snoc.
Qed.

(** X11: [send] never dispatches an event and touches nothing but
    [bytesSent] and the callbacks in flight, in any state and whichever way
    the write and the drain end. *)
Theorem send_touches_only_bytesSent a s :
  ((∃ data callback write_throws, a = CallSend data callback write_throws) ∨
   (∃ h data callback err, a = Fire (WriteCb h data callback) err) ∨
   (∃ h data callback err, a = Fire (DrainCb h data callback) err)) →
  let '(s', effs) := step vendorIdNames a s in
  s' = s <| bytesSent := bytesSent s' |> <| pending := pending s' |> ∧
  emitted effs = [].
Proof.
  intros [(data & callback & wt & ->) | [(h & data & callback & err & ->) |
          (h & data & callback & err & ->)]]; cbn [step].
  - unfold send. destruct_state s; simpl.
    destruct cn, po, wt, callback; by split.
  - unfold fire. destruct (decide _); [|by destruct_state s].
    destruct_state s. unfold write_callback; simpl.
    destruct err, po, callback; by split.
  - unfold fire. destruct (decide _); [|by destruct_state s].
    destruct_state s; simpl. destruct err, callback; by split.
Qed.

Lemma remove_first_other t u l : t ≠ u → t ∈ l → t ∈ remove_first u l.
Proof.
  intros Hne. induction l as [|x l IH]; intros Hin; simpl; [done|].
  destruct (decide (x = u)) as [->|Hx].
  - apply elem_of_cons in Hin as [->|Hin]; done.
  - apply elem_of_cons in Hin as [->|Hin]; [left|right; auto].
Qed.

(** X12: a [send] overtaken by a teardown never settles.  A [send] is
    suspended on its write; the session is torn down (the close ending
    through its callback); then the write callback fires without an error.
    The callback reads [this.port], which is [null] by then: the TypeError
    escapes, [bytesSent] is not touched and the promise of the [send] is
    neither fulfilled nor rejected. *)
Theorem send_overtaken_by_teardown s h data callback o :
  Open s h → o ≠ CloseThrows →
  let s1 := (send data callback false s).1.1 in
  let s2 := (disconnect_to_end o s1).1 in
  WriteCb h data callback ∈ pending s2 ∧
  (fire (WriteCb h data callback) false s2).2 = [Uncaught] ∧
  bytesSent (fire (WriteCb h data callback) false s2).1 = bytesSent s.
Proof.
  intros [Hc Hq Hp Hr Hl (hd & Hhd & _)] Ho. cbv zeta.
  destruct_state s; simpl in Hc, Hq, Hp, Hr, Hl, Hhd; subst.
  unfold send; simpl.
  unfold disconnect_to_end, disconnect, handle_open; simpl. rewrite Hhd.
  assert (Hin : WriteCb h data callback
                ∈ remove_first (DisconnectCloseCb h)
                    ((pd ++ [WriteCb h data callback]) ++ [DisconnectCloseCb h])).
  { apply remove_first_other; [done|].
    apply elem_of_app; left. apply elem_of_snoc. }
  destruct (isOpen hd); [destruct o; [| |done]|]; simpl.
  1, 2: rewrite (fire_in_flight (DisconnectCloseCb h)) by apply elem_of_snoc; simpl.
  all: destruct ocan; simpl.
  all: try (split; [exact Hin|]; rewrite fire_in_flight by exact Hin; by split).
  all: split; [apply elem_of_snoc|];
       rewrite fire_in_flight by apply elem_of_snoc; by split.
Qed.

Lemma run_handlers_noop n f s :
  (f s = (s, [])) → run_handlers n f s = (s, []).
Proof. intros Hf. induction n as [|n IH]; simpl; [done|]. by rewrite Hf, IH. Qed.

Lemma data_event_when_not_reading h chunk s :
  reading s = false → step vendorIdNames (DataEvent h chunk) s = (s, []).
Proof.
  intros Hr. cbn [step]. apply run_handlers_noop. unfold on_data. by rewrite Hr.
Qed.

Lemma disconnect_stops_reading ct s :
  connected s = true → reading (disconnect ct s).1.1 = false.
Proof.
  intros Hc. destruct_state s; simpl in Hc; subst.
  unfold disconnect, disconnect_catch, disconnect_finish, disconnect_finally,
    handle_open; simpl.
  repeat case_match; simplify_eq; reflexivity.
Qed.

(** X13: nothing is received once a teardown has begun.  From the moment
    [disconnect] is called on a connected session, whether the close is
    still pending or not, data arriving on any handle is dropped: no receive
    event is dispatched and nothing is counted. *)
Theorem no_receive_after_disconnect ct s tr :
  connected s = true →
  Forall (λ a, ∃ h chunk, a = DataEvent h chunk) tr →
  let s1 := (disconnect ct s).1.1 in
  run vendorIdNames tr s1 = (s1, []).
Proof.
  intros Hc Htr. cbv zeta.
  pose proof (disconnect_stops_reading ct s Hc) as Hr.
  set (s1 := (disconnect ct s).1.1) in *. clearbody s1.
  induction Htr as [|a tr (h & chunk & ->) _ IH]; [done|].
  cbn [run]. rewrite data_event_when_not_reading by done. by rewrite IH.
Qed.

(** X14: what a teardown keeps and what it resets.  [disconnect] on an
    open session leaves both byte counters at their last values, and its log
    line reports them with the connection id when the close ends through its
    callback; it unregisters [handleReceiveBytes], stops reading and
    transmitting, and clears a cancellation request left behind. *)
Theorem teardown_keeps_counters s h o :
  Open s h →
  let '(s', effs) := disconnect_to_end o s in
  bytesSent s' = bytesSent s ∧ bytesReceived s' = bytesReceived s ∧
  receiveListener s' = false ∧ reading s' = false ∧ transmitting s' = false ∧
  openCanceled s' = false ∧
  (o ≠ CloseThrows →
   Log (LogConnectionClosed (connectionId s) (bytesSent s) (bytesReceived s)) ∈ effs).
Proof.
  intros [Hc Hq Hp Hr Hl (hd & Hhd & _)].
  destruct_state s; simpl in Hc, Hq, Hp, Hr, Hl, Hhd; subst.
  unfold disconnect_to_end, disconnect, handle_open. simpl.
  rewrite Hhd.
  destruct (isOpen hd); [destruct o|]; simpl.
  1, 2: rewrite fire_in_flight by apply elem_of_snoc; simpl.
  all: destruct ocan; simpl; repeat split; try done; intros _;
       rewrite !elem_of_cons; tauto.
Qed.

(** X17: a device unplugged under an open session.  When a poll cycle
    obtains a listing without the connected path, the descriptor goes and
    [getConnectedPort] answers [null] from then on, while the session itself
    stays open: only an event of the handle or a call ends it. *)
Theorem unplug_seen_by_poll s h p systemPorts :
  Open s h → connectionId s = IdPath p → _SerialPort s = true →
  p ∉ PortInfo.path <$> systemPorts →
  let s' := (_pollDevices vendorIdNames (Some systemPorts) s).1 in
  getConnectedPort s' = None ∧ Open s' h ∧ connectionId s' = IdPath p.
Proof.
  intros Ho Hid Hsp Hp. cbv zeta.
  pose proof (pollDevices_paths vendorIdNames s systemPorts p Hsp) as Hpaths.
  rewrite pollDevices_diff in * by done. cbv zeta in *.
  set (ps' := filter _ (ports s) ++ _) in *. cbn [fst] in *.
  replace (ports (s <| ports := ps' |>)) with ps' in Hpaths by (by destruct_state s).
  split; [|split; [by apply Open_set_ports|by destruct_state s]].
  unfold getConnectedPort.
  replace (connectionId (s <| ports := ps' |>)) with (IdPath p)
    by (rewrite <- Hid; by destruct_state s).
  replace (ports (s <| ports := ps' |>)) with ps' by (by destruct_state s).
  destruct (find _ ps') as [d|] eqn:Hfind; [|done].
  apply find_some in Hfind as [Hin Heq]. apply bool_decide_eq_true_1 in Heq.
  exfalso. apply Hp, Hpaths. apply list_elem_of_fmap. exists d.
  split; [done|by apply list_elem_of_In].
Qed.

(** X18: [disconnect] does not cancel a pending connect.  Called while a
    connect is suspended on its open, [disconnect] returns [true] and does
    nothing; when the open then succeeds the session is open. *)
Theorem disconnect_does_not_cancel_opening s h path baudRate device hd ct :
  Opening s h (OpenCb h path baudRate device) → openCanceled s = false →
  handles s !! h = Some hd → listeners hd = 0%nat →
  let '(s', effs) :=
    run vendorIdNames
      [CallDisconnect ct; Fire (OpenCb h path baudRate device) false] s in
  Open s' h ∧ connectionId s' = IdPath path ∧
  disconnect_payloads effs = [] ∧
  Settle (DisconnectResult true) ∈ effs ∧ Settle (ConnectResult true) ∈ effs.
Proof.
  intros [Hc Ho Hq Hp Hin] Hx Hhd Hn.
  destruct_state s; simpl in Hc, Ho, Hq, Hp, Hx, Hhd, Hin; subst.
  cbn [run step]. unfold disconnect; simpl.
  rewrite fire_in_flight by done.
  unfold set_handle_open; simpl.
  destruct hd as [hp hb ho hl]; simpl in Hn; subst hl.
  split.
  - split; simpl; try done.
    do 2 rewrite list_lookup_alter_eq. rewrite Hhd. simpl. eauto.
  - repeat split; rewrite ?elem_of_cons; tauto.
Qed.

(** X15: a write that fails.  When the write callback of a [send] on an
    open session reports an error, the call settles with [{bytesSent: 0}],
    the callback (if any) gets that result, no event is dispatched, and the
    session is what it was, still open on its handle. *)
Theorem write_error_leaves_session_open s h data callback :
  Open s h →
  let '(s1, e1, r) := send data callback false s in
  let '(s2, e2) := fire (WriteCb h data callback) true s1 in
  r = Suspended ∧
  e2 = Log LogErrorSending :: notify callback 0 ++ [Settle (SendResult 0)] ∧
  emitted (e1 ++ e2) = [] ∧
  s2 = s <| pending := pending s2 |> ∧ Open s2 h.
Proof.
  intros Ho.
  pose proof (send_write_failure_changes_nothing s h data callback Ho) as H.
  destruct (send data callback false s) as [[s1 e1] r].
  destruct (fire (WriteCb h data callback) true s1) as [s2 e2].
  destruct H as (Hr & _ & He2 & Hem & Hs2).
  repeat split; try done.
  all: rewrite Hs2; destruct Ho; by destruct_state s.
Qed.

(** X16: a close that raises.  When the close call of a teardown raises,
    [disconnect] returns [false] and dispatches [disconnect(false)]; the
    session is disconnected with no close requested and no connection info,
    but [port], [connectionId] and [bitrate] are left as they were. *)
Theorem close_raising_keeps_port s h :
  Open s h → handle_open s h = true →
  let '(s', effs, r) := disconnect true s in
  r = Returned false ∧
  effs = [RemoveReceiveListener; PortCloseCall h;
          Log LogErrorDisconnecting; Emit (EDisconnect false)] ∧
  connected s' = false ∧ closeRequested s' = false ∧ connectionInfo s' = None ∧
  port s' = Some h ∧ connectionId s' = connectionId s ∧ bitrate s' = bitrate s.
Proof.
  intros [Hc Hq Hp Hr Hl _] Ho.
  destruct_state s; simpl in Hc, Hq, Hp, Hr, Hl; subst.
  unfold handle_open in Ho; simpl in Ho.
  unfold disconnect, handle_open; simpl. rewrite Ho; simpl.
  by destruct ocan.
Qed.

(** X6: the known list never gains a second descriptor for a path.  If it
    holds at most one descriptor per path, it still does after a poll cycle
    or a [loadDevices], whatever they add or remove and also when the listing
    fails, provided the listing itself names no path twice. *)
Theorem registry_paths_stay_unique s listed :
  NoDup (Device.path <$> ports s) →
  (∀ systemPorts, listed = Some systemPorts → NoDup (PortInfo.path <$> systemPorts)) →
  NoDup (Device.path <$> ports (step vendorIdNames (PollTick listed) s).1) ∧
  NoDup (Device.path <$> ports (step vendorIdNames (LoadDevices listed) s).1).
Proof.
  intros Hknown Hlisted. split; cbn [step].
  - by apply poll_keeps_paths_unique.
  - destruct (_SerialPort s) eqn:Hsp; [|by unfold loadDevices; rewrite Hsp].
    destruct listed as [systemPorts|]; [|by unfold loadDevices; rewrite Hsp].
    rewrite loadDevices_paths by done. by apply Hlisted.
Qed.

End SessionProps.

(** ** [requestPermissionDevice], [getDevices] and [_createPort] *)

Section PermissionProps.

Variable vendorIdNames : gmap Z string.
Variable serialDevices : list (Z * Z).

(** X19: [requestPermissionDevice] answers with a port of the reloaded
    list: [null] exactly when that list is empty; a port with the ids of a
    known flight controller whenever the list holds one, and then the first
    such port; the first port of the list otherwise.  [getDevices] answers
    with the same reloaded list. *)
Theorem requestPermissionDevice_choice listed s :
  let '(s', effs, r) :=
    requestPermissionDevice vendorIdNames serialDevices listed s in
  (s', effs) = loadDevices vendorIdNames listed s ∧
  getDevices vendorIdNames listed s = (s', effs, ports s') ∧
  (r = None ↔ ports s' = []) ∧
  (∀ d, r = Some d → d ∈ ports s') ∧
  (∀ d, d ∈ ports s' → known_flight_controller serialDevices d = true →
        ∃ d' before after,
          r = Some d' ∧ known_flight_controller serialDevices d' = true ∧
          ports s' = before ++ d' :: after ∧
          ∀ x, x ∈ before → known_flight_controller serialDevices x = false) ∧
  ((∀ d, d ∈ ports s' → known_flight_controller serialDevices d = false) →
   r = head (ports s')).
Proof.
  unfold requestPermissionDevice, getDevices.
  destruct (loadDevices vendorIdNames listed s) as [s' effs].
  set (known := known_flight_controller serialDevices).
  assert (Hfind : ∀ l,
            match find known l with
            | Some d' => ∃ before after, known d' = true ∧ l = before ++ d' :: after ∧
                                         ∀ x, x ∈ before → known x = false
            | None => ∀ d, d ∈ l → known d = false
            end).
  { induction l as [|x l IH]; simpl; [intros d Hd; by apply elem_of_nil in Hd|].
    destruct (known x) eqn:Hx.
    - exists [], l. repeat split; [done|]. intros y Hy. by apply elem_of_nil in Hy.
    - destruct (find known l) as [d'|].
      + destruct IH as (before & after & Hk & -> & Hbefore).
        exists (x :: before), after. repeat split; [done|].
        intros y [->|Hy]%elem_of_cons; auto.
      + intros d [->|Hd]%elem_of_cons; auto. }
  specialize (Hfind (ports s')).
  destruct (find known (ports s')) as [d'|] eqn:Hf.
  - destruct Hfind as (before & after & Hk & Hsplit & Hbefore).
    repeat split; try done.
    + intros Hnil. rewrite Hnil in Hsplit. by destruct before.
    + intros d [= <-]. rewrite Hsplit. apply elem_of_app; right. left.
    + intros d Hd Hkd. exists d', before, after. by repeat split.
    + intros Hnone. rewrite Hnone in Hk; [done|].
      rewrite Hsplit. apply elem_of_app; right. left.
  - repeat split; try done.
    + by destruct (ports s').
    + intros ->. done.
    + intros d Hd. destruct (ports s') as [|x l]; [done|]. simpl in Hd.
      injection Hd as ->. left.
    + intros d Hd Hkd. rewrite Hfind in Hkd; done.
Qed.

(** X20: the descriptor built for a listed port keeps the path and the
    port information; its display name always starts with the product tag
    "Betaflight "; its vendor and product ids are [undefined] exactly when the
    listing has none (missing or empty); and the manufacturer string plays no
    part when the vendor id is a non-zero number with a non-empty label in
    the vendor table. *)
Theorem createPort_descriptor portInfo :
  let d := _createPort vendorIdNames portInfo in
  Device.path d = PortInfo.path portInfo ∧
  Device.port d = portInfo ∧
  String.prefix "Betaflight " (Device.displayName d) = true ∧
  (Device.vendorId d = Undefined ↔ truthy_str (PortInfo.vendorId portInfo) = false) ∧
  (Device.productId d = Undefined ↔ truthy_str (PortInfo.productId portInfo) = false) ∧
  (∀ label,
     truthy_num (Device.vendorId d) = true →
     vendor_label vendorIdNames (Device.vendorId d) = Some label → label ≠ ""%string →
     Device.displayName d = ("Betaflight " +:+ label)%string).
Proof.
  assert (Hparse : ∀ x, parseInt16 x ≠ Undefined).
  { intros x. unfold parseInt16. destruct (strip_sign _) as [sign r].
    by destruct (hex_prefix _ _). }
  cbv zeta. unfold _createPort; simpl. repeat split; try done.
  - match goal with |- String.prefix _ (_ +:+ ?x) = _ => by destruct x end.
  - destruct (truthy_str (PortInfo.vendorId portInfo)); [|done].
    intros H. by apply Hparse in H.
  - by intros ->.
  - destruct (truthy_str (PortInfo.productId portInfo)); [|done].
    intros H. by apply Hparse in H.
  - by intros ->.
  - intros label Ht Hl Hne. rewrite Ht, Hl. simpl.
    destruct (String.eqb_spec label ""); [done|]. reflexivity.
Qed.

End PermissionProps.

(** ** Witnesses on the sample object *)

Lemma sample_idle_Idle : Idle sample_idle.
Proof. split; vm_compute; reflexivity. Qed.

Lemma sample_open_handle_open : handle_open sample_open 0 = true.
Proof. vm_compute; reflexivity. Qed.

Lemma sample_find_COM3 :
  find (λ d, bool_decide (Device.path d = "COM3"%string)) (ports sample_idle)
  = Some sample_device.
Proof. vm_compute; reflexivity. Qed.

Lemma registry_paths_stay_unique_witness :
  (NoDup (Device.path <$> ports sample_idle) ∧
   ∀ systemPorts, Some [sample_COM4] = Some systemPorts →
                  NoDup (PortInfo.path <$> systemPorts)) ∧
  NoDup (Device.path <$>
           ports (step sample_vendorIdNames (PollTick (Some [sample_COM4])) sample_idle).1) ∧
  NoDup (Device.path <$>
           ports (step sample_vendorIdNames (LoadDevices (Some [sample_COM4])) sample_idle).1).
Proof.
  assert (H1 : NoDup (Device.path <$> ports sample_idle)).
  { refine (bool_decide_unpack _ _). vm_compute. exact I. }
  assert (H2 : ∀ systemPorts, Some [sample_COM4] = Some systemPorts →
                              NoDup (PortInfo.path <$> systemPorts)).
  { intros ? [= <-]. apply NoDup_singleton. }
  split; [by split|].
  exact (registry_paths_stay_unique sample_vendorIdNames sample_idle
           (Some [sample_COM4]) H1 H2).
Defined.

Lemma connect_opens_session_witness :
  (Idle sample_idle ∧ _SerialPort sample_idle = true ∧
   openCanceled sample_idle = false ∧
   find (λ d, bool_decide (Device.path d = "COM3"%string)) (ports sample_idle)
   = Some sample_device) ∧
  let h := length (handles sample_idle) in
  let info := mkConnectionInfo (Device.vendorId sample_device)
                (Device.productId sample_device) in
  let '(s', effs) :=
    run sample_vendorIdNames
      [CallConnect "COM3" 115200; Fire (OpenCb h "COM3" 115200 sample_device) false]
      sample_idle in
  Open s' h ∧ handle_open s' h = true ∧
  connectionId s' = IdPath "COM3" ∧ bitrate s' = 115200 ∧
  connectionInfo s' = Some info ∧
  bytesSent s' = 0 ∧ bytesReceived s' = 0 ∧
  emitted effs = [EConnect (Some info)] ∧
  Settle (ConnectResult true) ∈ effs ∧
  getConnectedPort s' = Some sample_device.
Proof.
  split; [exact (conj sample_idle_Idle (conj eq_refl (conj eq_refl sample_find_COM3)))|].
  exact (connect_opens_session sample_vendorIdNames sample_idle "COM3"%string 115200
           sample_device sample_idle_Idle eq_refl eq_refl sample_find_COM3).
Defined.

Lemma open_error_returns_to_idle_witness :
  Opening sample_opening 0 (OpenCb 0 "COM3" 115200 sample_device) ∧
  let '(s', effs) := fire (OpenCb 0 "COM3" 115200 sample_device) true sample_opening in
  Idle s' ∧
  effs = [Log LogErrorOpening; Emit (EConnect None); Settle (ConnectResult false)] ∧
  handles s' = handles sample_opening ∧ openCanceled s' = openCanceled sample_opening.
Proof.
  split; [exact sample_opening_Opening|].
  exact (open_error_returns_to_idle sample_opening 0%nat "COM3"%string 115200
           sample_device sample_opening_Opening).
Defined.

Lemma sample_canceled_Opening :
  Opening (step sample_vendorIdNames CancelOpen sample_opening).1 0
    (OpenCb 0 "COM3" 115200 sample_device).
Proof.
  split; try (vm_compute; reflexivity).
  assert (pending (step sample_vendorIdNames CancelOpen sample_opening).1
          = [OpenCb 0 "COM3" 115200 sample_device]) as ->
    by (vm_compute; reflexivity).
  apply list_elem_of_here.
Qed.

Lemma cancel_outlives_failed_open_witness :
  let s := (step sample_vendorIdNames CancelOpen sample_opening).1 in
  let device' := _createPort sample_vendorIdNames sample_COM4 in
  (Opening s 0 (OpenCb 0 "COM3" 115200 sample_device) ∧ openCanceled s = true ∧
   _SerialPort s = true ∧
   find (λ d, bool_decide (Device.path d = "COM4"%string)) (ports s) = Some device') ∧
  let h' := length (handles s) in
  let '(s', effs) :=
    run sample_vendorIdNames
      [Fire (OpenCb 0 "COM3" 115200 sample_device) true;
       CallConnect "COM4" 9600;
       Fire (OpenCb h' "COM4" 9600 device') false] s in
  effs = [Log LogErrorOpening; Emit (EConnect None); Settle (ConnectResult false);
          PortOpenCall h'; PortCloseCall h'; Settle (ConnectResult false)] ∧
  connected s' = false ∧ openCanceled s' = false ∧
  CancelCloseCb h' ∈ pending s'.
Proof.
  assert (Hfind : find (λ d, bool_decide (Device.path d = "COM4"%string))
                    (ports (step sample_vendorIdNames CancelOpen sample_opening).1)
                  = Some (_createPort sample_vendorIdNames sample_COM4))
    by (vm_compute; reflexivity).
  split; [exact (conj sample_canceled_Opening (conj eq_refl (conj eq_refl Hfind)))|].
  exact (cancel_outlives_failed_open sample_vendorIdNames
           (step sample_vendorIdNames CancelOpen sample_opening).1
           0%nat "COM3"%string 115200 sample_device "COM4"%string 9600
           (_createPort sample_vendorIdNames sample_COM4)
           sample_canceled_Opening eq_refl eq_refl Hfind).
Defined.

Lemma send_touches_only_bytesSent_witness :
  ((∃ data callback write_throws,
      CallSend sample_data true false = CallSend data callback write_throws) ∨
   (∃ h data callback err,
      CallSend sample_data true false = Fire (WriteCb h data callback) err) ∨
   (∃ h data callback err,
      CallSend sample_data true false = Fire (DrainCb h data callback) err)) ∧
  let '(s', effs) := step sample_vendorIdNames (CallSend sample_data true false) sample_open in
  s' = sample_open <| bytesSent := bytesSent s' |> <| pending := pending s' |> ∧
  emitted effs = [].
Proof.
  assert (H : (∃ data callback write_throws,
                 CallSend sample_data true false = CallSend data callback write_throws) ∨
              (∃ h data callback err,
                 CallSend sample_data true false = Fire (WriteCb h data callback) err) ∨
              (∃ h data callback err,
                 CallSend sample_data true false = Fire (DrainCb h data callback) err)).
  { left. by exists sample_data, true, false. }
  split; [exact H|].
  exact (send_touches_only_bytesSent sample_vendorIdNames
           (CallSend sample_data true false) sample_open H).
Defined.

Lemma send_overtaken_by_teardown_witness :
  (Open sample_open 0 ∧ CloseOk ≠ CloseThrows) ∧
  let s1 := (send sample_data true false sample_open).1.1 in
  let s2 := (disconnect_to_end CloseOk s1).1 in
  WriteCb 0 sample_data true ∈ pending s2 ∧
  (fire (WriteCb 0 sample_data true) false s2).2 = [Uncaught] ∧
  bytesSent (fire (WriteCb 0 sample_data true) false s2).1 = bytesSent sample_open.
Proof.
  assert (H : CloseOk ≠ CloseThrows) by discriminate.
  split; [exact (conj sample_open_Open H)|].
  exact (send_overtaken_by_teardown sample_open 0%nat sample_data true CloseOk
           sample_open_Open H).
Defined.

Lemma no_receive_after_disconnect_witness :
  (connected sample_open = true ∧
   Forall (λ a, ∃ h chunk, a = DataEvent h chunk) [DataEvent 0 sample_data]) ∧
  let s1 := (disconnect false sample_open).1.1 in
  run sample_vendorIdNames [DataEvent 0 sample_data] s1 = (s1, []).
Proof.
  assert (H : Forall (λ a, ∃ h chunk, a = DataEvent h chunk) [DataEvent 0 sample_data]).
  { apply Forall_cons; split; [by exists 0%nat, sample_data|apply Forall_nil_2]. }
  split; [exact (conj eq_refl H)|].
  exact (no_receive_after_disconnect sample_vendorIdNames false sample_open
           [DataEvent 0 sample_data] eq_refl H).
Defined.

Lemma teardown_keeps_counters_witness :
  Open sample_open 0 ∧
  let '(s', effs) := disconnect_to_end CloseOk sample_open in
  bytesSent s' = bytesSent sample_open ∧ bytesReceived s' = bytesReceived sample_open ∧
  receiveListener s' = false ∧ reading s' = false ∧ transmitting s' = false ∧
  openCanceled s' = false ∧
  (CloseOk ≠ CloseThrows →
   Log (LogConnectionClosed (connectionId sample_open) (bytesSent sample_open)
          (bytesReceived sample_open)) ∈ effs).
Proof.
  split; [exact sample_open_Open|].
  exact (teardown_keeps_counters sample_open 0%nat CloseOk sample_open_Open).
Defined.

Lemma unplug_seen_by_poll_witness :
  (Open sample_open 0 ∧ connectionId sample_open = IdPath "COM3" ∧
   _SerialPort sample_open = true ∧
   "COM3"%string ∉ PortInfo.path <$> [sample_COM4]) ∧
  let s' := (_pollDevices sample_vendorIdNames (Some [sample_COM4]) sample_open).1 in
  getConnectedPort s' = None ∧ Open s' 0 ∧ connectionId s' = IdPath "COM3".
Proof.
  assert (H : "COM3"%string ∉ PortInfo.path <$> [sample_COM4]).
  { intros Hin. apply list_elem_of_singleton in Hin. discriminate Hin. }
  split; [exact (conj sample_open_Open (conj eq_refl (conj eq_refl H)))|].
  exact (unplug_seen_by_poll sample_vendorIdNames sample_open 0%nat "COM3"%string
           [sample_COM4] sample_open_Open eq_refl eq_refl H).
Defined.

Lemma disconnect_does_not_cancel_opening_witness :
  (Opening sample_opening 0 (OpenCb 0 "COM3" 115200 sample_device) ∧
   openCanceled sample_opening = false ∧
   handles sample_opening !! 0%nat = Some (mkHandle "COM3" 115200 false 0) ∧
   listeners (mkHandle "COM3" 115200 false 0) = 0%nat) ∧
  let '(s', effs) :=
    run sample_vendorIdNames
      [CallDisconnect false; Fire (OpenCb 0 "COM3" 115200 sample_device) false]
      sample_opening in
  Open s' 0 ∧ connectionId s' = IdPath "COM3" ∧
  disconnect_payloads effs = [] ∧
  Settle (DisconnectResult true) ∈ effs ∧ Settle (ConnectResult true) ∈ effs.
Proof.
  split; [exact (conj sample_opening_Opening (conj eq_refl (conj eq_refl eq_refl)))|].
  exact (disconnect_does_not_cancel_opening sample_vendorIdNames sample_opening
           0%nat "COM3"%string 115200 sample_device (mkHandle "COM3" 115200 false 0)
           false sample_opening_Opening eq_refl eq_refl eq_refl).
Defined.

Lemma write_error_leaves_session_open_witness :
  Open sample_open 0 ∧
  let '(s1, e1, r) := send sample_data true false sample_open in
  let '(s2, e2) := fire (WriteCb 0 sample_data true) true s1 in
  r = Suspended ∧
  e2 = Log LogErrorSending :: notify true 0 ++ [Settle (SendResult 0)] ∧
  emitted (e1 ++ e2) = [] ∧
  s2 = sample_open <| pending := pending s2 |> ∧ Open s2 0.
Proof.
  split; [exact sample_open_Open|].
  exact (write_error_leaves_session_open sample_open 0%nat sample_data true
           sample_open_Open).
Defined.

Lemma close_raising_keeps_port_witness :
  (Open sample_open 0 ∧ handle_open sample_open 0 = true) ∧
  let '(s', effs, r) := disconnect true sample_open in
  r = Returned false ∧
  effs = [RemoveReceiveListener; PortCloseCall 0;
          Log LogErrorDisconnecting; Emit (EDisconnect false)] ∧
  connected s' = false ∧ closeRequested s' = false ∧ connectionInfo s' = None ∧
  port s' = Some 0%nat ∧ connectionId s' = connectionId sample_open ∧
  bitrate s' = bitrate sample_open.
Proof.
  split; [exact (conj sample_open_Open sample_open_handle_open)|].
  exact (close_raising_keeps_port sample_open 0%nat sample_open_Open
           sample_open_handle_open).
Defined.

(** ** The build script *)

Import Gulpfile.

Lemma word_run_idem s : word_run (word_run s) = word_run s.
Proof.
  induction s as [|a r IH]; simpl; [done|].
  destruct (word_char a) eqn:Ha; simpl; [|done].
  by rewrite Ha, IH.
Qed.

Lemma word_run_split s : ∃ rest, s = word_run s +:+ rest ∧ word_run rest = "".
Proof.
  induction s as [|a r [rest [IH1 IH2]]]; simpl.
  - by exists "".
  - destruct (word_char a) eqn:Ha.
    + exists rest. split; [|done].
      change (String a r = String a (word_run r +:+ rest)). by f_equal.
    + exists (String a r). split; [done | simpl; by rewrite Ha].
Qed.

Lemma word_run_app p post :
  word_run p = p → word_run post = "" → word_run (p +:+ post) = p.
Proof.
  induction p as [|a r IH]; [done|].
  change (String a r +:+ post) with (String a (r +:+ post)). simpl.
  destruct (word_char a); [|done].
  intros [= Hr] Hpost. by rewrite IH.
Qed.

Lemma match_flag_sound s w :
  match_flag s = Some w →
  w ≠ "" ∧ word_run w = w ∧
  ∃ pre post, s = pre +:+ "--" +:+ w +:+ post ∧ word_run post = "".
Proof.
  revert w. induction s as [|a t IH]; intros w; simpl; [done|].
  assert (∀ w, match_flag t = Some w →
            w ≠ "" ∧ word_run w = w ∧
            ∃ pre post, String a t = pre +:+ "--" +:+ w +:+ post ∧
                        word_run post = "") as Hrec.
  { intros w' Hw'. destruct (IH _ Hw') as (H1 & H2 & pre & post & -> & H3).
    repeat split; try done. by exists (String a pre), post. }
  destruct (Ascii.eqb_spec a "-") as [->|_]; [|apply Hrec].
  destruct t as [|b r]; [done|].
  destruct (Ascii.eqb_spec b "-") as [->|_]; [|apply Hrec].
  destruct (word_run r) as [|c w'] eqn:Hrun; [apply Hrec|].
  intros [= <-]. split; [done|]. split.
  - rewrite <- Hrun. apply word_run_idem.
  - destruct (word_run_split r) as (rest & Hr & Hrest).
    exists "", rest. rewrite Hrun in Hr. by rewrite Hr at 1.
Qed.

Lemma match_flag_plain p post :
  p ≠ "" → word_run p = p → word_run post = "" →
  match_flag ("--" +:+ p +:+ post) = Some p.
Proof.
  intros Hp Hrun Hpost.
  change ("--" +:+ p +:+ post) with (String "-" (String "-" (p +:+ post))).
  simpl. rewrite (word_run_app _ _ Hrun Hpost). by destruct p.
Qed.

Lemma scan_args_spec args platforms logs :
  (scan_args args platforms logs).1 =
  platforms ++ filter (λ arg, supported arg = true) (omap match_flag args).
Proof.
  revert platforms logs.
  induction args as [|a rest IH]; intros platforms logs; simpl.
  - by rewrite app_nil_r.
  - destruct (match_flag a) as [arg|]; simpl; [|apply IH].
    destruct (supported arg) eqn:Hs.
    + rewrite IH, filter_cons_True by done. by rewrite <- app_assoc.
    + rewrite filter_cons_False by (by rewrite Hs).
      destruct (arg =? "nowinicon")%string; apply IH.
Qed.

Lemma getInputPlatforms_flags argv os :
  (getInputPlatforms argv os).2 =
  match platform_flags argv with
  | [] => match getDefaultPlatform os with
          | EmptyString => Exits 1
          | d => Returns [d]
          end
  | flags => Returns flags
  end.
Proof.
  unfold getInputPlatforms, platform_flags.
  pose proof (scan_args_spec (drop 3 argv) [] []) as H.
  destruct (scan_args (drop 3 argv) [] []) as [platforms logs].
  simpl in H. rewrite <- H.
  destruct platforms; [|done].
  by destruct (getDefaultPlatform os).
Qed.

Lemma platform_flags_supported argv :
  Forall (λ p, p ∈ supportedPlatforms) (platform_flags argv).
Proof.
  apply Forall_forall. intros p Hp.
  apply list_elem_of_filter in Hp as [Hp _].
  by apply bool_decide_eq_true in Hp.
Qed.

Lemma getDefaultPlatform_supported os :
  getDefaultPlatform os = "" ∨ getDefaultPlatform os ∈ supportedPlatforms.
Proof.
  unfold getDefaultPlatform, supportedPlatforms.
  repeat case_match; [right; set_solver ..| by left].
Qed.

Lemma selection_supported argv os ps :
  (getInputPlatforms argv os).2 = Returns ps →
  ps ≠ [] ∧ Forall (λ p, p ∈ supportedPlatforms) ps.
Proof.
  rewrite getInputPlatforms_flags.
  pose proof (platform_flags_supported argv) as Hf.
  destruct (platform_flags argv) as [|f fs] eqn:E.
  - destruct (getDefaultPlatform_supported os) as [Hd|Hd].
    + by rewrite Hd.
    + destruct (getDefaultPlatform os) eqn:Ed; [done|].
      intros [= <-]. split; [done|]. by apply Forall_singleton.
  - intros [= <-]. by split.
Qed.

Lemma supported_cases p :
  p ∈ supportedPlatforms →
  p = "linux64" ∨ p = "linux32" ∨ p = "osx64" ∨ p = "win32" ∨ p = "win64" ∨
  p = "android".
Proof.
  unfold supportedPlatforms. rewrite !elem_of_cons, elem_of_nil. tauto.
Qed.

Lemma filter_not_android ps :
  Forall (λ p, p ∈ supportedPlatforms) ps →
  Forall (λ p, p = "linux64" ∨ p = "linux32" ∨ p = "osx64" ∨ p = "win32" ∨
               p = "win64")
         (filter (λ p, not_android p = true) ps).
Proof.
  intros H. apply Forall_forall. intros p Hp.
  apply list_elem_of_filter in Hp as [Hna Hp].
  rewrite Forall_forall in H. apply H, supported_cases in Hp.
  destruct Hp as [?|[?|[?|[?|[?|Ha]]]]]; [tauto..|by subst p].
Qed.

Lemma build_loop_buildable metadata build flavor dir l :
  Forall (λ p, p = "linux64" ∨ p = "linux32" ∨ p = "osx64" ∨ p = "win32" ∨
               p = "win64") l →
  (∀ msg, (build_loop metadata build l flavor dir).2 ≠ Rejected_by_parsePlatform msg) ∧
  Forall (well_formed flavor dir metadata) (build_loop metadata build l flavor dir).1.1 ∧
  ((∀ req, build req = true) →
   (build_loop metadata build l flavor dir).2 = Done ∧
   map built (build_loop metadata build l flavor dir).1.1 = l).
Proof.
  induction 1 as [|p l Hp Hl IH].
  { split; [done|]. split; [constructor|done]. }
  assert (∃ t, parsePlatform p = Parsed t ∧
               target_platform t ∈ ["osx"; "win"; "linux"] ∧
               target_arch t ∈ ["x64"; "ia32"]) as ([platform arch] & Hparse & Hpl & Har).
  { clear IH. destruct Hp as [-> |[-> |[-> |[-> | ->]]]]; eexists;
      (split; [reflexivity|]); simpl; split; set_solver. }
  destruct IH as (IH1 & IH2 & IH3).
  simpl in Hpl, Har. simpl. rewrite Hparse.
  match goal with |- context [build ?r] => set (req := r) end.
  assert (well_formed flavor dir metadata req) as Hreq.
  { assert (is_Some (app_name (app_for metadata platform)) ∧
            is_Some (app_icon (app_for metadata platform))) as [Hn Hi].
    { unfold app_for.
      apply elem_of_cons in Hpl as [->|Hpl]; [split; by eexists|].
      apply elem_of_cons in Hpl as [->|Hpl]; [split; by eexists|].
      apply list_elem_of_singleton in Hpl as ->. split; by eexists. }
    unfold well_formed, req; simpl. tauto. }
  destruct (build req) eqn:Hb.
  - destruct (build_loop metadata build l flavor dir) as [[reqs logs] e].
    simpl in *. split; [exact IH1|]. split; [by constructor|].
    intros Hall. destruct (IH3 Hall) as [-> ->]. done.
  - simpl. split; [done|]. split; [by apply Forall_singleton|].
    intros Hall. by rewrite Hall in Hb.
Qed.

Lemma tasks_of_supported dir p :
  p ∈ supportedPlatforms →
  omap zipped (tasks_of dir p) = (if not_android p then [p] else []) ∧
  (tasks_of dir p = [] ↔ p = "android") ∧
  noop ∉ tasks_of dir p.
Proof.
  intros Hp. apply supported_cases in Hp.
  destruct Hp as [-> |[-> |[-> |[-> |[-> | ->]]]]]; vm_compute tasks_of;
    (split; [reflexivity|]); (split; [split; intros; done|]);
    rewrite ?elem_of_cons, elem_of_nil; intros H;
    repeat (destruct H as [H|H]; [discriminate H|]); done.
Qed.

Lemma release_tasks_supported dir ps :
  Forall (λ p, p ∈ supportedPlatforms) ps →
  omap zipped (concat (map (tasks_of dir) ps)) =
    filter (λ p, not_android p = true) ps ∧
  (concat (map (tasks_of dir) ps) = [] ↔ Forall (λ p, p = "android") ps) ∧
  noop ∉ concat (map (tasks_of dir) ps).
Proof.
  induction 1 as [|p l Hp Hl IH]; simpl.
  { split; [done|]. split; [done|]. apply not_elem_of_nil. }
  destruct IH as (IH1 & IH2 & IH3).
  destruct (tasks_of_supported dir p Hp) as (T1 & T2 & T3).
  split; [|split; [split|]].
  - rewrite omap_app, T1, IH1.
    destruct (not_android p) eqn:E.
    + by rewrite filter_cons_True.
    + rewrite filter_cons_False; [done|]. by rewrite E.
  - intros [Ha Hb]%app_eq_nil. constructor; [by apply T2 | by apply IH2].
  - intros Hall. apply Forall_cons in Hall as [Ha Hb].
    apply T2 in Ha. apply IH2 in Hb. by rewrite Ha, Hb.
  - rewrite elem_of_app. tauto.
Qed.

(** X21: which platforms the build script selects.  The platform flags of
    the command line are the captures of [--(\w+)] in the arguments from
    index 3 on that name a supported platform.  When there is at least one,
    [getInputPlatforms] returns exactly these, in order and with their
    repetitions, and the operating system plays no part.  When there is
    none, it returns the one default platform of the operating system, and
    ends the process with code 1 exactly when the operating system is none
    of darwin, linux and win32.  Whatever it returns is a non-empty list of
    supported platforms. *)
Theorem getInputPlatforms_selection (argv : list string) (os : string) :
  let r := (getInputPlatforms argv os).2 in
  (platform_flags argv ≠ [] → r = Returns (platform_flags argv)) ∧
  (platform_flags argv = [] →
     (os = "darwin" → r = Returns ["osx64"]) ∧
     (os = "linux" → r = Returns ["linux64"]) ∧
     (os = "win32" → r = Returns ["win64"]) ∧
     (os ∉ ["darwin"; "linux"; "win32"] → r = Exits 1)) ∧
  (r = Exits 1 →
     platform_flags argv = [] ∧ os ∉ ["darwin"; "linux"; "win32"]) ∧
  (∀ ps, r = Returns ps →
     ps ≠ [] ∧ Forall (λ p, p ∈ supportedPlatforms) ps).
Proof.
  simpl. split; [|split; [|split]].
  - rewrite getInputPlatforms_flags. by destruct (platform_flags argv).
  - rewrite getInputPlatforms_flags. intros ->.
    repeat split; try (by intros ->).
    intros Hos. unfold getDefaultPlatform.
    destruct (String.eqb_spec os "darwin") as [E|_]; [destruct Hos; rewrite E; set_solver|].
    destruct (String.eqb_spec os "linux") as [E|_]; [destruct Hos; rewrite E; set_solver|].
    destruct (String.eqb_spec os "win32") as [E|_]; [destruct Hos; rewrite E; set_solver|done].
  - rewrite getInputPlatforms_flags.
    destruct (platform_flags argv); [|done].
    unfold getDefaultPlatform. intros H. split; [done|].
    destruct (String.eqb_spec os "darwin") as [?|?]; [done|].
    destruct (String.eqb_spec os "linux") as [?|?]; [done|].
    destruct (String.eqb_spec os "win32") as [?|?]; [done|].
    rewrite !elem_of_cons, elem_of_nil. tauto.
  - apply selection_supported.
Qed.

(** X22: where the flags are read.  A platform is selected by a flag only
    if an argument from index 3 on holds its name right after two dashes
    and not followed by a word character, anywhere in the argument: the
    expression is not anchored.  In the other direction, an argument from
    index 3 on that is two dashes, the name of a supported platform and a
    rest that does not start with a word character (as in [--win64=1])
    selects that platform. *)
Theorem platforms_come_from_flags (argv : list string) (os : string)
    (ps : list string) :
  (getInputPlatforms argv os).2 = Returns ps →
  (∀ p post, p ∈ supportedPlatforms → word_run post = "" →
     "--" +:+ p +:+ post ∈ drop 3 argv → p ∈ ps) ∧
  (platform_flags argv ≠ [] →
     ∀ p, p ∈ ps →
       ∃ a pre post, a ∈ drop 3 argv ∧ a = pre +:+ "--" +:+ p +:+ post ∧
                     word_run post = "").
Proof.
  rewrite getInputPlatforms_flags. intros Hsel. split.
  - intros p post Hp Hpost Ha.
    assert (p ∈ platform_flags argv) as Hin.
    { apply list_elem_of_filter. split; [by apply bool_decide_eq_true|].
      apply list_elem_of_omap. eexists. split; [exact Ha|].
      apply match_flag_plain; [| |done];
        apply supported_cases in Hp;
        destruct Hp as [-> |[-> |[-> |[-> |[-> | ->]]]]]; done. }
    destruct (platform_flags argv) as [|f fs]; [by apply elem_of_nil in Hin|].
    by injection Hsel as <-.
  - intros Hne p Hp.
    destruct (platform_flags argv) as [|f fs] eqn:E; [done|].
    injection Hsel as <-. rewrite <- E in Hp.
    apply list_elem_of_filter in Hp as [_ Hp].
    apply list_elem_of_omap in Hp as (a & Ha & Hm).
    destruct (match_flag_sound _ _ Hm) as (_ & _ & pre & post & Hs & Hpost).
    by exists a, pre, post.
Qed.

(** X23: the build never meets a platform it cannot parse.  For a
    selection returned by [getInputPlatforms], [apps] and [debug_apps] are
    never rejected by [parsePlatform] raising [Unknown platform]; every
    request they make of [nwbuild] has one of the platforms osx, win and
    linux, an architecture, and an [app] object with a name and an icon;
    and when every request succeeds, [done] is called after one request
    per selected platform other than android, in the order of the
    selection. *)
Theorem apps_build_the_selection (argv : list string) (os : string)
    (ps : list string) (nwbuild : option (BuildRequest → bool))
    (metadata : Metadata) :
  (getInputPlatforms argv os).2 = Returns ps →
  let a := apps nwbuild metadata ps in
  let d := debug_apps nwbuild metadata ps in
  (∀ msg, a.2 ≠ Rejected_by_parsePlatform msg) ∧
  (∀ msg, d.2 ≠ Rejected_by_parsePlatform msg) ∧
  Forall (well_formed "normal" APPS_DIR metadata) a.1.1 ∧
  Forall (well_formed "sdk" DEBUG_DIR metadata) d.1.1 ∧
  (∀ build, nwbuild = Some build → (∀ req, build req = true) →
     a.2 = Done ∧ map built a.1.1 = filter (λ p, not_android p = true) ps ∧
     d.2 = Done ∧ map built d.1.1 = filter (λ p, not_android p = true) ps).
Proof.
  intros Hsel. apply selection_supported in Hsel as [_ Hsup].
  apply filter_not_android in Hsup.
  unfold apps, debug_apps, buildNWApps, getPlatforms.
  destruct (filter (λ p, not_android p = true) ps) as [|p l] eqn:E.
  - simpl. repeat split; done.
  - destruct nwbuild as [build|].
    + destruct (build_loop_buildable metadata build "normal" APPS_DIR _ Hsup)
        as (A1 & A2 & A3).
      destruct (build_loop_buildable metadata build "sdk" DEBUG_DIR _ Hsup)
        as (D1 & D2 & D3).
      cbv zeta. split; [exact A1|]. split; [exact D1|].
      split; [exact A2|]. split; [exact D2|].
      intros build' [= <-] Hall.
      destruct (A3 Hall) as [? ?]. destruct (D3 Hall) as [? ?]. done.
    + simpl. repeat split; done.
Qed.

(** X24: the release packages what was built.  For a selection returned by
    [getInputPlatforms], the list of release tasks is never empty; its zip
    tasks are, in order, the selected platforms other than android, which
    are the platforms [apps] builds; and it is the single [noop] task
    exactly when android is the only platform selected, [noop] appearing in
    no other case. *)
Theorem release_tasks_match_the_build (argv : list string) (os : string)
    (ps : list string) (appDirectory : string) :
  (getInputPlatforms argv os).2 = Returns ps →
  let tasks := listReleaseTasks ps appDirectory in
  tasks ≠ [] ∧
  omap zipped tasks = filter (λ p, not_android p = true) ps ∧
  (tasks = [noop] ↔ Forall (λ p, p = "android") ps) ∧
  (noop ∈ tasks → tasks = [noop]).
Proof.
  intros Hsel. apply selection_supported in Hsel as [_ Hsup].
  destruct (release_tasks_supported appDirectory ps Hsup) as (R1 & R2 & R3).
  unfold listReleaseTasks, getPlatforms. cbv zeta.
  destruct (concat (map (tasks_of appDirectory) ps)) as [|t ts] eqn:E.
  - split; [done|]. split.
    + simpl. rewrite <- R1. done.
    + split; [|done]. split; [intros _; by apply R2 | done].
  - split; [done|]. split; [exact R1|]. split.
    + split.
      * intros [= -> ->]. exfalso. apply R3. by left.
      * intros Hall. apply R2 in Hall. done.
    + intros Hn. by apply R3 in Hn.
Qed.

Lemma getInputPlatforms_selection_witness :
  platform_flags ["node"; "gulp"; "release"; "--android"; "x--linux64=1"; "--nowinicon"]
    = ["android"; "linux64"] ∧
  (getInputPlatforms ["node"; "gulp"; "release"; "--android"; "x--linux64=1"; "--nowinicon"]
     "freebsd").2
    = Returns (platform_flags
                 ["node"; "gulp"; "release"; "--android"; "x--linux64=1"; "--nowinicon"]) ∧
  (getInputPlatforms ["node"; "gulp"; "release"; "--linux64x"] "freebsd").2 = Exits 1.
Proof.
  split; [vm_compute; reflexivity|]. split.
  - apply (getInputPlatforms_selection
             ["node"; "gulp"; "release"; "--android"; "x--linux64=1"; "--nowinicon"]
             "freebsd").
    vm_compute. discriminate.
  - apply (getInputPlatforms_selection ["node"; "gulp"; "release"; "--linux64x"] "freebsd").
    + vm_compute; reflexivity.
    + rewrite !elem_of_cons, elem_of_nil. intros [H|[H|[H|[]]]]; discriminate H.
Defined.

Lemma platforms_come_from_flags_witness :
  "win64" ∈ ["win64"; "linux32"] ∧
  ∃ a pre post, a ∈ drop 3 ["node"; "gulp"; "release"; "--win64=1"; "x--linux32"] ∧
                a = pre +:+ "--" +:+ "linux32" +:+ post ∧ word_run post = "".
Proof.
  destruct (platforms_come_from_flags
              ["node"; "gulp"; "release"; "--win64=1"; "x--linux32"] "linux"
              ["win64"; "linux32"]) as [H1 H2].
  - vm_compute; reflexivity.
  - split.
    + apply (H1 "win64" "=1"); [| reflexivity |];
        rewrite ?elem_of_cons; repeat first [left; reflexivity | right].
    + apply H2; [vm_compute; discriminate|].
      rewrite ?elem_of_cons; repeat first [left; reflexivity | right].
Defined.

Lemma apps_build_the_selection_witness :
  (apps (Some (λ _, true)) (mkMetadata None None) ["android"; "win32"]).2 = Done ∧
  map built (apps (Some (λ _, true)) (mkMetadata None None) ["android"; "win32"]).1.1
    = ["win32"].
Proof.
  destruct (apps_build_the_selection
              ["node"; "gulp"; "release"; "--android"; "--win32"] "linux"
              ["android"; "win32"] (Some (λ _, true)) (mkMetadata None None))
    as (_ & _ & _ & _ & H).
  - vm_compute; reflexivity.
  - destruct (H (λ _, true)) as (H1 & H2 & _); [reflexivity | done |].
    split; [exact H1 | exact H2].
Defined.

Lemma release_tasks_match_the_build_witness :
  omap zipped (listReleaseTasks ["android"; "win32"] APPS_DIR) = ["win32"].
Proof.
  apply (release_tasks_match_the_build
           ["node"; "gulp"; "release"; "--android"; "--win32"] "linux"
           ["android"; "win32"] APPS_DIR).
  vm_compute; reflexivity.
Defined.
